(** * OrganizeMedia: a shallow embedding of [OrganizeMedia.py]

    The script lists a directory, keeps the photo and video files, reads a
    capture date from each of them, moves every file into a directory named
    after that date and prints what went where.

    Conventions of the embedding.
    - Python [str] is [string]; a list is a [list]; the [transactions] dict is
      an association list in insertion order, as a Python dict is.
    - Code that can raise or call [sys.exit] returns a [result].
    - Code with effects ([print], [os.makedirs], [shutil.move], mutation of
      [transactions]) is a function [state -> result A * state]; the state is
      kept when the code raises or exits, as the effects already performed
      are.
    - What the script reads from outside ([os.listdir], [Image.open],
      [ffmpeg.probe], [os.getcwd]) is a [world] of oracles.  So is the
      file system: whether a path exists, and whether [os.makedirs] and
      [shutil.move] raise, is what the world answers at that point of the
      run; the embedding makes the calls of the script, in its order, and
      assumes nothing about the answers.
    - A string is the sequence of its UTF-8 bytes, whose order is the order
      of the code points that Python compares.  White space is that of
      [str.isspace], read on the bytes; letter case is that of the ASCII
      range.
    - The progress bar of [tqdm] is left out. *)

From Stdlib Require Import String Ascii List ZArith Bool Lia.
From Stdlib Require Import Sorting.Sorted Sorting.Permutation.
From Stdlib Require Import DecimalString OrdersEx RelationClasses.
Import ListNotations.
Open Scope string_scope.

(** ** Python primitives *)

(** The exceptions the script can meet. *)
Inductive exn : Type :=
| IndexError
| KeyError (key : string)
| UnboundLocalError (var : string)
| EOFError
| FileNotFoundError (path : string)
| FileExistsError (path : string)
| NotADirectoryError (path : string)
| OSError (msg : string).

(** How a piece of code ends: it returns, it calls [sys.exit(code)], or it
    raises. *)
Inductive result (A : Type) : Type :=
| Normal (a : A)
| SysExit (code : Z)
| Raised (e : exn).
Arguments Normal {A} a.
Arguments SysExit {A} code.
Arguments Raised {A} e.

(** [s.split(sep)] for a separator of one character: never empty, and a
    string without the separator is returned whole. *)
Fixpoint str_split (sep : ascii) (s : string) : list string :=
  match s with
  | EmptyString => [EmptyString]
  | String c r =>
      if Ascii.eqb c sep then EmptyString :: str_split sep r
      else match str_split sep r with
           | t :: ts => String c t :: ts
           | [] => [String c EmptyString]
           end
  end.

(** [l[-1]]: the last item, [None] standing for [IndexError]. *)
Fixpoint last_item (l : list string) : option string :=
  match l with
  | [] => None
  | [x] => Some x
  | _ :: r => last_item r
  end.

(** [l[i]] for [i >= 0]. *)
Definition item (l : list string) (i : nat) : result string :=
  match nth_error l i with
  | Some x => Normal x
  | None => Raised IndexError
  end.

(** [x in l] on a list of strings. *)
Definition elem (x : string) (l : list string) : bool :=
  existsb (String.eqb x) l.

(** White space, as [str.isspace], [str.split()] and [str.strip()] have
    it: the characters U+0009 to U+000D, U+001C to U+0020, U+0085, U+00A0,
    U+1680, U+2000 to U+200A, U+2028, U+2029, U+202F, U+205F and U+3000.
    In UTF-8 the first ten are the bytes 9 to 13 and 28 to 32; U+0085 and
    U+00A0 are 194 followed by 133 or 160; U+1680 is 225, 154, 128;
    U+2000 to U+200A, U+2028, U+2029 and U+202F are 226, 128 followed by
    128 to 138, 168, 169 or 175; U+205F is 226, 129, 159; U+3000 is 227,
    128, 128.  No such sequence begins inside another character. *)
Definition space1 (c1 : ascii) : bool :=
  let n1 := nat_of_ascii c1 in
  ((9 <=? n1) && (n1 <=? 13) || (28 <=? n1) && (n1 <=? 32))%nat.

Definition space2 (c1 c2 : ascii) : bool :=
  let n1 := nat_of_ascii c1 in
  let n2 := nat_of_ascii c2 in
  ((n1 =? 194) && ((n2 =? 133) || (n2 =? 160)))%nat.

Definition space3 (c1 c2 c3 : ascii) : bool :=
  let n1 := nat_of_ascii c1 in
  let n2 := nat_of_ascii c2 in
  let n3 := nat_of_ascii c3 in
  ((n1 =? 225) && (n2 =? 154) && (n3 =? 128)
   || (n1 =? 226) && (n2 =? 128)
      && ((128 <=? n3) && (n3 <=? 138)
          || (n3 =? 168) || (n3 =? 169) || (n3 =? 175))
   || (n1 =? 226) && (n2 =? 129) && (n3 =? 159)
   || (n1 =? 227) && (n2 =? 128) && (n3 =? 128))%nat.

(** The number of bytes of the white-space character that [s] begins
    with, and 0 when it begins with none. *)
Definition space_len (s : string) : nat :=
  match s with
  | EmptyString => 0
  | String c1 r1 =>
      if space1 c1 then 1
      else
        match r1 with
        | EmptyString => 0
        | String c2 r2 =>
            if space2 c1 c2 then 2
            else
              match r2 with
              | EmptyString => 0
              | String c3 _ => if space3 c1 c2 c3 then 3 else 0
              end
        end
  end.

(** [s.split()]: the maximal runs of characters that are not white space.
    [cur] is the run being read, reversed; [skip] counts the bytes still
    to pass of a white-space character that has begun. *)
Fixpoint split_ws_aux (s : string) (cur : list ascii) (skip : nat)
  : list string :=
  match s with
  | EmptyString =>
      match cur with
      | [] => []
      | _ => [string_of_list_ascii (rev cur)]
      end
  | String c r =>
      match skip with
      | S k => split_ws_aux r cur k
      | O =>
          match space_len s with
          | S k =>
              match cur with
              | [] => split_ws_aux r [] k
              | _ => string_of_list_ascii (rev cur) :: split_ws_aux r [] k
              end
          | O => split_ws_aux r (c :: cur) 0
          end
      end
  end.

Definition split_ws (s : string) : list string := split_ws_aux s [] 0.

(** [s.lstrip()], [s.rstrip()] and [s.strip()]. *)
Fixpoint lstrip_aux (s : string) (skip : nat) : string :=
  match s with
  | EmptyString => EmptyString
  | String c r =>
      match skip with
      | S k => lstrip_aux r k
      | O =>
          match space_len s with
          | S k => lstrip_aux r k
          | O => s
          end
      end
  end.

Definition lstrip (s : string) : string := lstrip_aux s 0.

(** [s] is made of white space only, once [skip] bytes are passed. *)
Fixpoint all_space_aux (s : string) (skip : nat) : bool :=
  match s with
  | EmptyString => true
  | String c r =>
      match skip with
      | S k => all_space_aux r k
      | O =>
          match space_len s with
          | S k => all_space_aux r k
          | O => false
          end
      end
  end.

Fixpoint rstrip (s : string) : string :=
  match s with
  | EmptyString => EmptyString
  | String c r =>
      if all_space_aux s 0 then EmptyString else String c (rstrip r)
  end.

Definition strip (s : string) : string := rstrip (lstrip s).

(** [str(n)] for a length. *)
Definition str_of_nat (n : nat) : string :=
  NilEmpty.string_of_uint (Nat.to_uint n).

(** [s.lower()] on the ASCII range. *)
Definition lower_ascii (c : ascii) : ascii :=
  let n := nat_of_ascii c in
  if ((65 <=? n) && (n <=? 90))%nat then ascii_of_nat (n + 32) else c.

Fixpoint lower (s : string) : string :=
  match s with
  | EmptyString => EmptyString
  | String c r => String (lower_ascii c) (lower r)
  end.

(** ** MediaClassifier: [find_media_in_dir] *)

Definition DEFAULT_DEST : string := "Timestamp_Unavailable".

Definition photo_types : list string := ["jpg"; "png"].
Definition video_types : list string := ["mp4"].

(** The [for] loop of [find_media_in_dir]; the two accumulators are the
    lists [photo_media] and [video_media], which grow by [append]. *)
Fixpoint find_media_loop (files photo_media video_media : list string)
  : result (list string * list string) :=
  match files with
  | [] => Normal (photo_media, video_media)
  | file_name :: rest =>
      let tokens := str_split "." file_name in
      match last_item tokens with
      | None => Raised IndexError
      | Some ext =>
          if elem ext photo_types then
            find_media_loop rest (photo_media ++ [file_name])%list video_media
          else if elem ext video_types then
            find_media_loop rest photo_media (video_media ++ [file_name])%list
          else find_media_loop rest photo_media video_media
      end
  end.

Definition find_media_in_dir (files : list string)
  : result (list string * list string) :=
  find_media_loop files [] [].

(** The last token of a file name between dots, as a total function. *)
Definition last_token (file_name : string) : string :=
  last (str_split "." file_name) EmptyString.

Definition is_photo (file_name : string) : bool :=
  elem (last_token file_name) photo_types.

Definition is_video (file_name : string) : bool :=
  elem (last_token file_name) video_types.

(** A string that does not hold the character [c]. *)
Fixpoint lacks (c : ascii) (s : string) : bool :=
  match s with
  | EmptyString => true
  | String x r => negb (Ascii.eqb x c) && lacks c r
  end.

(** A string that holds no dot. *)
Definition no_dot (s : string) : bool := lacks "." s.

(** ** TransactionLog: [add_record] and [pp_transactions] *)

(** The [transactions] dict: destination -> file names, in insertion order. *)
Definition dict : Type := list (string * list string).

(** [d.get(k, default)] *)
Fixpoint dict_get (d : dict) (k : string) (default : list string)
  : list string :=
  match d with
  | [] => default
  | (k', v) :: r => if String.eqb k k' then v else dict_get r k default
  end.

(** [d[k] = v]: a key already there keeps its place, a new one goes last. *)
Fixpoint dict_set (d : dict) (k : string) (v : list string) : dict :=
  match d with
  | [] => [(k, v)]
  | (k', v') :: r =>
      if String.eqb k k' then (k, v) :: r else (k', v') :: dict_set r k v
  end.

Definition add_record (transactions : dict) (media_file dest : string)
  : dict :=
  let val := dict_get transactions dest [] in
  let val := (val ++ [media_file])%list in
  dict_set transactions dest val.

(** [<] on strings, by code points. *)
Definition str_lt (a b : string) : Prop := String.compare a b = Lt.

(** [<] on lists of strings, as Python compares lists. *)
Fixpoint list_ltb (a b : list string) : bool :=
  match a, b with
  | [], [] => false
  | [], _ :: _ => true
  | _ :: _, [] => false
  | x :: a', y :: b' =>
      match String.compare x y with
      | Lt => true
      | Eq => list_ltb a' b'
      | Gt => false
      end
  end.

(** [<] on the [(key, value)] tuples that [transactions.items()] yields. *)
Definition item_ltb (a b : string * list string) : bool :=
  match String.compare (fst a) (fst b) with
  | Lt => true
  | Eq => list_ltb (snd a) (snd b)
  | Gt => false
  end.

(** [sorted]: a stable sort that only asks [<]. *)
Fixpoint insert_sorted (x : string * list string) (l : dict) : dict :=
  match l with
  | [] => [x]
  | y :: r => if item_ltb y x then y :: insert_sorted x r else x :: y :: r
  end.

Fixpoint sorted (l : dict) : dict :=
  match l with
  | [] => []
  | x :: r => insert_sorted x (sorted r)
  end.

(** The message of one destination: the inner [for val in v] loop. *)
Definition entry_msg (kv : string * list string) : string :=
  fold_left (fun msg val => msg ++ String "010" "    " ++ val) (snd kv)
    (String "010" (fst kv) ++ ":").

(** ** Effects *)

Record state : Type := mkState {
  stdout : list string;             (* what was printed, oldest first *)
  stderr : list string;
  dirs : list string;               (* the directories that the run knows:
                                       those it began with and those that
                                       [os.makedirs] has made *)
  moved : list (string * string);   (* the [shutil.move] calls, oldest first *)
  transactions : dict               (* the dict that [main] creates *)
}.

Definition M (A : Type) : Type := state -> result A * state.

Definition ret {A} (a : A) : M A := fun st => (Normal a, st).

Definition bind {A B} (c : M A) (k : A -> M B) : M B :=
  fun st =>
    match c st with
    | (Normal a, st') => k a st'
    | (SysExit code, st') => (SysExit code, st')
    | (Raised e, st') => (Raised e, st')
    end.

Notation "x <- c ;; k" := (bind c (fun x => k))
  (at level 61, c at next level, right associativity).
Notation "c ;; k" := (bind c (fun _ => k))
  (at level 61, right associativity).

Definition lift {A} (r : result A) : M A := fun st => (r, st).
Definition raise {A} (e : exn) : M A := lift (Raised e).
Definition sys_exit {A} (code : Z) : M A := lift (SysExit code).

Definition print (msg : string) : M unit :=
  fun st => (Normal tt,
             mkState (stdout st ++ [msg]) (stderr st) (dirs st) (moved st)
                     (transactions st)).

Definition eprint (msg : string) : M unit :=
  fun st => (Normal tt,
             mkState (stdout st) (stderr st ++ [msg]) (dirs st) (moved st)
                     (transactions st)).

(** [try: body except IndexError: handler] *)
Definition try_except_IndexError {A} (body handler : M A) : M A :=
  fun st =>
    match body st with
    | (Raised IndexError, st') => handler st'
    | other => other
    end.

(** [pp_transactions]: one [print] for each item of
    [sorted(transactions.items())]. *)
Fixpoint pp_loop (items : dict) : M unit :=
  match items with
  | [] => ret tt
  | kv :: rest => print (entry_msg kv) ;; pp_loop rest
  end.

Definition pp_transactions (transactions : dict) : M unit :=
  pp_loop (sorted transactions).

(** ** File system *)

(** The proper prefixes of [s] that end just before a slash, [pre] being
    what was read so far, reversed: the parents that [os.makedirs] makes
    on the way when they are not there. *)
Fixpoint parents_aux (pre : list ascii) (s : string) : list string :=
  match s with
  | EmptyString => []
  | String c r =>
      let here :=
        if Ascii.eqb c "/" then
          match pre with
          | [] => []
          | _ => [string_of_list_ascii (rev pre)]
          end
        else [] in
      (here ++ parents_aux (c :: pre) r)%list
  end.

Definition parents (path : string) : list string := parents_aux [] path.

(** [add_record(transactions, media_file, dest)] on the dict of the run. *)
Definition record (media_file dest : string) : M unit :=
  fun st =>
    (Normal tt,
     mkState (stdout st) (stderr st) (dirs st) (moved st)
             (add_record (transactions st) media_file dest)).

(** ** DestinationResolver: [generate_date_dir] *)

Definition generate_date_dir (source_dir year month dir_layout : string)
  : M string :=
  if dir_layout =? "month" then ret (source_dir ++ month)
  else if dir_layout =? "year" then ret (source_dir ++ year)
  else if dir_layout =? "year_month" then
    ret (source_dir ++ year ++ "_" ++ month)
  else if dir_layout =? "year/month" then
    ret (source_dir ++ year ++ "/" ++ month)
  else
    print "Invalid dir_layout provided" ;;
    sys_exit 1.

(** ** What the script reads from outside *)

(** An opened image: its EXIF table, tag number -> value. *)
Record image : Type := mkImage {
  getexif : list (Z * string)
}.

(** [exif.get(tag, None)] *)
Fixpoint exif_get (exif : list (Z * string)) (tag : Z) : option string :=
  match exif with
  | [] => None
  | (t, v) :: r => if Z.eqb tag t then Some v else exif_get r tag
  end.

(** A stream of the report of [ffmpeg.probe]; [tags] is [None] when the
    stream has no ["tags"] key. *)
Record stream : Type := mkStream {
  codec_type : string;
  tags : option (list (string * string))
}.

Record probe : Type := mkProbe {
  streams : list stream
}.

(** [d[k]] on a dict of strings: [KeyError] when the key is missing. *)
Fixpoint getitem (d : list (string * string)) (k : string) : result string :=
  match d with
  | [] => Raised (KeyError k)
  | (k', v) :: r => if String.eqb k k' then Normal v else getitem r k
  end.

(** The oracles; [inl] carries the text of the exception raised.  The
    last three are the file system, asked in the state that the run has
    reached: whether [os.path.exists(path)] holds (for a directory as for
    a plain file), and the exception, if any, that [os.makedirs(path)]
    and [shutil.move(original, dest)] raise. *)
Record world : Type := mkWorld {
  os_listdir : string -> string + list string;
  os_getcwd : string;
  Image_open : string -> string + image;      (* [inl]: an [IOError] *)
  ffmpeg_probe : string -> string + probe;    (* [inl]: an [ffmpeg.Error] *)
  os_path_exists : state -> string -> bool;
  os_makedirs_raises : state -> string -> option exn;
  shutil_move_raises : state -> string -> string -> option exn
}.

(** ** TimestampExtractor and OrganizeSession *)

Section Session.

Variable w : world.

(** [os.makedirs(path)]: it raises, or [path] and the parents that were
    not there are made. *)
Definition os_makedirs (path : string) : M unit :=
  fun st =>
    match os_makedirs_raises w st path with
    | Some e => (Raised e, st)
    | None =>
        let made :=
          filter (fun p => negb (os_path_exists w st p))
                 (parents path ++ [path]) in
        (Normal tt,
         mkState (stdout st) (stderr st) (dirs st ++ made) (moved st)
                 (transactions st))
    end.

Definition create_dir (filepath : string) : M unit :=
  fun st =>
    if negb (os_path_exists w st filepath) then os_makedirs filepath st
    else (Normal tt, st).

(** [shutil.move(original, dest)]: it raises, or the move is made. *)
Definition shutil_move (original dest : string) : M unit :=
  fun st =>
    match shutil_move_raises w st original dest with
    | Some e => (Raised e, st)
    | None =>
        (Normal tt,
         mkState (stdout st) (stderr st) (dirs st)
                 (moved st ++ [(original, dest)]) (transactions st))
    end.

Definition move_media (file_dir media_file dest : string) : M unit :=
  let original := file_dir ++ media_file in
  let dest' := dest ++ "/" ++ media_file in
  shutil_move original dest'.

(** The last three lines of the body of both loops. *)
Definition place (source_dir media_file date_dir : string) : M unit :=
  create_dir date_dir ;;
  move_media source_dir media_file date_dir ;;
  record media_file date_dir.

(** Lines 124-130 of [img_copy_n_sort]: the directory of a photo whose
    EXIF tag 306 is [timestamp]. *)
Definition photo_date_dir (source_dir : string) (timestamp : option string)
    (dir_layout : string) : M string :=
  let default_dir := source_dir ++ DEFAULT_DEST in
  match timestamp with
  | None => ret default_dir
  | Some timestamp =>
      let time_tokens := split_ws timestamp in
      t0 <- lift (item time_tokens 0) ;;
      let date := str_split ":" t0 in
      year <- lift (item date 0) ;;
      month <- lift (item date 1) ;;
      generate_date_dir source_dir year month dir_layout
  end.

(** Lines 99-103 of [video_copy_n_sort]: the directory of a video whose
    video stream is [video_stream]. *)
Definition video_date_dir (source_dir : string) (video_stream : stream)
    (dir_layout : string) : M string :=
  let default_dir := source_dir ++ DEFAULT_DEST in
  try_except_IndexError
    (t <- match tags video_stream with
          | Some t => ret t
          | None => raise (KeyError "tags")
          end ;;
     creation_time <- lift (getitem t "creation_time") ;;
     let tokens := str_split "-" creation_time in
     year <- lift (item tokens 0) ;;
     month <- lift (item tokens 1) ;;
     generate_date_dir source_dir year month dir_layout)
    (ret default_dir).

(** The loop of [video_copy_n_sort]. *)
Fixpoint video_copy_n_sort (videos : list string)
    (source_dir dir_layout : string) : M unit :=
  match videos with
  | [] => ret tt
  | vid :: rest =>
      let vid_location := source_dir ++ vid in
      probe <- match ffmpeg_probe w vid_location with
               | inr p => ret p
               | inl e_stderr => eprint e_stderr ;; sys_exit 1
               end ;;
      video_stream <-
        match find (fun s => codec_type s =? "video") (streams probe) with
        | Some s => ret s
        | None => eprint "No video stream found" ;; sys_exit 1
        end ;;
      date_dir <- video_date_dir source_dir video_stream dir_layout ;;
      create_dir date_dir ;;
      move_media source_dir vid date_dir ;;
      record vid date_dir ;;
      video_copy_n_sort rest source_dir dir_layout
  end.

(** The loop of [img_copy_n_sort].  [img_file] is the local variable of
    that name: [None] until a first [Image.open] succeeds, and left as it
    was when [Image.open] raises. *)
Fixpoint img_loop (jpg_files : list string) (img_file : option image)
    (source_dir dir_layout : string) : M unit :=
  match jpg_files with
  | [] => ret tt
  | pic :: rest =>
      img_file <- match Image_open w (source_dir ++ pic) with
                  | inr img => ret (Some img)
                  | inl e => print ("Invalid Image: " ++ e) ;; ret img_file
                  end ;;
      img <- match img_file with
             | Some img => ret img
             | None => raise (UnboundLocalError "img_file")
             end ;;
      let exif := getexif img in
      let timestamp := exif_get exif 306 in
      date_dir <- photo_date_dir source_dir timestamp dir_layout ;;
      create_dir date_dir ;;
      move_media source_dir pic date_dir ;;
      record pic date_dir ;;
      img_loop rest img_file source_dir dir_layout
  end.

Definition img_copy_n_sort (jpg_files : list string)
    (source_dir dir_layout : string) : M unit :=
  img_loop jpg_files None source_dir dir_layout.

(** [input(prompt)] writes the prompt and reads a line of [stdin]; at the
    end of the input it raises [EOFError]. *)
Definition confirm_prompt : string :=
  String "010" "Would you like to sort these images? (y/n): ".

Definition layout_prompt : string :=
  String "010" "Which directory layout would you prefer?:" ++
  String "010" "            year (y), month (m), year_month? (y_m), " ++
  "or year/month (y/m): ".

(** The first [while] loop of [main]; it returns the input left. *)
Fixpoint confirm_loop (stdin : list string) : M (list string) :=
  match stdin with
  | [] => print confirm_prompt ;; raise EOFError
  | res :: rest =>
      print confirm_prompt ;;
      if strip res =? "y" then ret rest
      else if strip res =? "n" then
        print "Abort recieved, no images moved." ;;
        sys_exit 1
      else confirm_loop rest
  end.

(** The second [while] loop of [main]; it returns the layout chosen. *)
Fixpoint layout_loop (stdin : list string) : M string :=
  match stdin with
  | [] => print layout_prompt ;; raise EOFError
  | res :: rest =>
      print layout_prompt ;;
      if strip res =? "y" then ret "year"
      else if strip res =? "m" then ret "month"
      else if strip res =? "y_m" then ret "year_month"
      else if strip res =? "y/m" then ret "year/month"
      else print "Invalid input, please try again." ;; layout_loop rest
  end.

Definition new_transactions : M unit :=
  fun st =>
    (Normal tt, mkState (stdout st) (stderr st) (dirs st) (moved st) []).

Definition get_transactions : M dict :=
  fun st => (Normal (transactions st), st).

Definition main (source_dir : string) (stdin : list string) : M unit :=
  match os_listdir w source_dir with
  | inl e =>
      print ("Non-Valid Directory: " ++ e) ;;
      ret tt
  | inr arr =>
      media <- lift (find_media_in_dir arr) ;;
      let imgs := fst media in
      let videos := snd media in
      let place := os_getcwd w ++ "/" ++ source_dir in
      if ((length imgs =? 0) && (length videos =? 0))%nat then
        print ("No Media found in " ++ place ++ "!") ;;
        sys_exit 1
      else
        print (str_of_nat (length imgs) ++ " images and " ++
               str_of_nat (length videos) ++ " videos found in " ++ place) ;;
        stdin <- confirm_loop stdin ;;
        dir_layout <- layout_loop stdin ;;
        new_transactions ;;
        img_copy_n_sort imgs source_dir dir_layout ;;
        video_copy_n_sort videos source_dir dir_layout ;;
        transactions <- get_transactions ;;
        pp_transactions transactions
  end.

(** The [__main__] block: [argv] is [sys.argv]. *)
Definition script (argv stdin : list string) : M unit :=
  match nth_error argv 1 with
  | Some a => main a stdin
  | None =>
      print "Optional path not given, current directory used as default." ;;
      main "/" stdin
  end.

End Session.

(** The exit status of the process: 0 when the script runs to its end, the
    argument of [sys.exit], and 1 for an exception that nobody caught. *)
Definition exit_status {A} (r : result A) : Z :=
  match r with
  | Normal _ => 0
  | SysExit code => code
  | Raised _ => 1
  end.

Definition initial_state : state := mkState [] [] [] [] [].

(** Two tokens that differ in the case of some letters and in nothing
    else. *)
Definition differs_only_in_case (a b : string) : Prop :=
  lower a = lower b /\ a <> b.

(** The log after a sequence of [record(destination, filename)] calls on
    an empty dict, oldest call first. *)
Definition build_log (calls : list (string * string)) : dict :=
  fold_left (fun t c => add_record t (snd c) (fst c)) calls [].

(** The file names recorded for [dest], in the order of the calls. *)
Definition files_for (dest : string) (calls : list (string * string))
  : list string :=
  map snd (filter (fun c => fst c =? dest) calls).

Definition with_stdout (st : state) (out : list string) : state :=
  mkState out (stderr st) (dirs st) (moved st) (transactions st).

(** The lines that [entry_msg] adds for the file names [v], in one piece. *)
Fixpoint file_lines (v : list string) : string :=
  match v with
  | [] => EmptyString
  | val :: r => String "010" "    " ++ val ++ file_lines r
  end.

(** ** Sample runs *)

(** A file system without surprises: the paths that exist are the
    directories that the run knows, and neither [os.makedirs] nor
    [shutil.move] raises. *)
Definition known_exists (st : state) (path : string) : bool :=
  elem path (dirs st).

Definition makedirs_returns (st : state) (path : string) : option exn :=
  None.

Definition move_returns (st : state) (original dest : string) : option exn :=
  None.

(** A directory [pics/] with a photo taken in August 2021, a file that
    [Image.open] cannot read, a photo whose extension is in capitals (and
    that nothing can open), a video with a creation time, one whose
    creation time holds no dash and one whose tags lack the creation
    time.  Nothing else can be listed, opened or probed. *)
Definition sample_world : world :=
  mkWorld
    (fun d =>
       if d =? "pics/" then
         inr ["ok.jpg"; "bad.jpg"; "shot.JPG"; "clip.mp4"; "odd.mp4";
              "bare.mp4"]
       else inl "[Errno 2] No such file or directory")
    "/home/user"
    (fun p =>
       if p =? "pics/ok.jpg" then
         inr (mkImage [(306%Z, "2021:08:15 10:00:00")])
       else inl "cannot identify image file")
    (fun p =>
       if p =? "pics/clip.mp4" then
         inr (mkProbe [mkStream "audio" None;
                       mkStream "video"
                         (Some [("creation_time", "2021-08-20T09:30:00")])])
       else if p =? "pics/odd.mp4" then
         inr (mkProbe [mkStream "video" (Some [("creation_time", "unknown")])])
       else if p =? "pics/bare.mp4" then
         inr (mkProbe [mkStream "video" (Some [("encoder", "Lavf58")])])
       else inl "ffprobe error")
    known_exists makedirs_returns move_returns.

(** The state in which the directory pics exists and nothing has happened
    yet. *)
Definition sample_state : state := mkState [] [] ["pics"] [] [].

(** The four layouts that [generate_date_dir] knows. *)
Definition layouts : list string :=
  ["month"; "year"; "year_month"; "year/month"].

(** ** What a run leaves behind *)

(** [placed] lists the files that a loop has dealt with, each with the
    directory chosen for it.  These are the [shutil.move] calls and the
    log that they stand for. *)
Definition placed_moves (source_dir : string)
    (placed : list (string * string)) : list (string * string) :=
  map (fun p => (source_dir ++ fst p, snd p ++ "/" ++ fst p)) placed.

Definition placed_log (placed : list (string * string)) (t : dict) : dict :=
  fold_left (fun t p => add_record t (fst p) (snd p)) placed t.

(** [run] is what a loop over [files] gives from the state [st]: it dealt
    with the first files of the list, with all of them if it returned;
    each of them was moved once and recorded once, under the directory
    of its move, in the order of the list, and nothing else was moved or
    recorded; the directories that the run knew are still known. *)
Definition places (source_dir : string) (files : list string) (st : state)
    (run : result unit * state) : Prop :=
  exists placed : list (string * string),
    (exists n, map fst placed = firstn n files)
    /\ (fst run = Normal tt -> map fst placed = files)
    /\ moved (snd run) = (moved st ++ placed_moves source_dir placed)%list
    /\ transactions (snd run) = placed_log placed (transactions st)
    /\ incl (dirs st) (dirs (snd run)).

(** A piece of code that leaves the directories, the moves and the log as
    they are. *)
Definition quiet {A} (c : M A) : Prop :=
  forall st,
    dirs (snd (c st)) = dirs st
    /\ moved (snd (c st)) = moved st
    /\ transactions (snd (c st)) = transactions st.

(** The file name [x] stands in the log [t]. *)
Definition recorded (x : string) (t : dict) : Prop :=
  exists k v, In (k, v) t /\ In x v.

(** [run] is what [main] gives from the state [st]: the files moved are
    photos and videos of the classifier, and the log is either left as it
    was or holds just these files. *)
Definition session (source_dir : string) (st : state)
    (run : result unit * state) : Prop :=
  exists placed : list (string * string),
    Forall (fun p => is_photo (fst p) = true \/ is_video (fst p) = true)
      placed
    /\ moved (snd run) = (moved st ++ placed_moves source_dir placed)%list
    /\ (transactions (snd run) = transactions st
        \/ transactions (snd run) = placed_log placed []).

(** ** Measures and sample data for the further properties *)

(** The number of file names that the log holds. *)
Fixpoint log_size (t : dict) : nat :=
  match t with
  | [] => 0
  | (_, v) :: r => length v + log_size r
  end.

Definition with_stderr (st : state) (err : list string) : state :=
  mkState (stdout st) err (dirs st) (moved st) (transactions st).

(** A string in which no white-space character begins. *)
Fixpoint no_space (s : string) : bool :=
  match s with
  | EmptyString => true
  | String c r => (space_len s =? 0)%nat && no_space r
  end.

(** The only status that [sys.exit] is given is 1. *)
Definition exits_with_1 {A} (c : M A) : Prop :=
  forall st code, fst (c st) = SysExit code -> code = 1%Z.

(** A photo that the loop of [img_copy_n_sort] gets through: it opens,
    and its EXIF date, if it has one, begins with a token that holds a
    colon. *)
Definition photo_ready (w : world) (source_dir pic : string) : Prop :=
  exists img,
    Image_open w (source_dir ++ pic) = inr img
    /\ match exif_get (getexif img) 306 with
       | None => True
       | Some timestamp =>
           exists t0 more,
             split_ws timestamp = t0 :: more /\ lacks ":" t0 = false
       end.

(** A video that the loop of [video_copy_n_sort] gets through: it can be
    probed, it has a stream of type video, and the first such stream has
    tags with a creation time. *)
Definition video_ready (w : world) (source_dir vid : string) : Prop :=
  exists p s t c,
    ffmpeg_probe w (source_dir ++ vid) = inr p
    /\ find (fun s => codec_type s =? "video") (streams p) = Some s
    /\ tags s = Some t
    /\ getitem t "creation_time" = Normal c.

(** A directory [album/] with a photo and a video of January 2020 and a
    text file. *)
Definition tidy_world : world :=
  mkWorld
    (fun d =>
       if d =? "album/" then inr ["a.jpg"; "b.mp4"; "c.txt"]
       else inl "[Errno 2] No such file or directory")
    "/home/user"
    (fun p =>
       if p =? "album/a.jpg" then
         inr (mkImage [(306%Z, "2020:01:15 10:00:00")])
       else inl "cannot identify image file")
    (fun p =>
       if p =? "album/b.mp4" then
         inr (mkProbe [mkStream "video"
                         (Some [("creation_time", "2020-01-20T08:00:00")])])
       else inl "ffprobe error")
    known_exists makedirs_returns move_returns.

(** The photos and videos that [main] finds in the source directory, and
    nothing when the directory cannot be listed. *)
Definition media_of (w : world) (source_dir : string) : list string :=
  match os_listdir w source_dir with
  | inl _ => []
  | inr arr => (filter is_photo arr ++ filter is_video arr)%list
  end.

(** [run] moved, from the state [st], files named in [allowed] only, each
    under its own name. *)
Definition moves_within (source_dir : string) (allowed : list string)
    (st : state) (run : result unit * state) : Prop :=
  exists placed : list (string * string),
    incl (map fst placed) allowed
    /\ moved (snd run) = (moved st ++ placed_moves source_dir placed)%list.

(** A world in which every photo opens and carries the date 2021-08-15,
    written with dashes. *)
Definition dashed_world : world :=
  mkWorld (fun _ => inl "not listed") "/home/user"
    (fun _ => inr (mkImage [(306%Z, "2021-08-15")]))
    (fun _ => inl "ffprobe error")
    known_exists makedirs_returns move_returns.

(** A world whose directory docs/ holds no photo and no video. *)
Definition docs_world : world :=
  mkWorld (fun _ => inr ["notes.txt"; "shot.JPG"]) "/home/user"
    (fun _ => inl "cannot identify image file")
    (fun _ => inl "ffprobe error")
    known_exists makedirs_returns move_returns.


(** A file system on which [os.makedirs] and [shutil.move] do not
    raise. *)
Definition never_raises (w : world) : Prop :=
  (forall st path, os_makedirs_raises w st path = None)
  /\ (forall st original dest, shutil_move_raises w st original dest = None).


(** The line that [generate_date_dir] prints before it exits. *)
Definition layout_diagnostic : string := "Invalid dir_layout provided".

(** A piece of code that only adds lines to the standard output, none of
    which is [msg]. *)
Definition never_prints {A} (msg : string) (c : M A) : Prop :=
  forall st,
    exists new,
      stdout (snd (c st)) = (stdout st ++ new)%list /\ ~ In msg new.

(** * Properties *)

(** ** The classifier *)

Lemma str_split_not_nil (sep : ascii) (s : string) : str_split sep s <> [].
Proof.
  destruct s as [|c r]; simpl; [discriminate|].
  destruct (Ascii.eqb c sep); [discriminate|].
  destruct (str_split sep r); discriminate.
Qed.

Lemma last_item_last (l : list string) :
  l <> [] -> last_item l = Some (last l EmptyString).
Proof.
  induction l as [|x [|y r] IH]; intros H; [congruence|reflexivity|].
  change (last_item (y :: r) = Some (last (y :: r) EmptyString)).
  apply IH; discriminate.
Qed.

Lemma last_item_split (file_name : string) :
  last_item (str_split "." file_name) = Some (last_token file_name).
Proof. apply last_item_last, str_split_not_nil. Qed.

Lemma str_split_lacks (sep : ascii) (s : string) :
  lacks sep s = true -> str_split sep s = [s].
Proof.
  induction s as [|c r IH]; simpl; [reflexivity|].
  intros H; apply andb_true_iff in H; destruct H as [Hc Hr].
  apply negb_true_iff in Hc; rewrite Hc, (IH Hr); reflexivity.
Qed.

Lemma last_token_no_dot (s : string) : no_dot s = true -> last_token s = s.
Proof.
  intros H; unfold last_token; rewrite (str_split_lacks "." s H); reflexivity.
Qed.

Lemma elem_In (x : string) (l : list string) : elem x l = true <-> In x l.
Proof.
  unfold elem; rewrite existsb_exists; split.
  - intros [y [Hy E]]; apply String.eqb_eq in E; subst; assumption.
  - intros H; exists x; split; [assumption|apply String.eqb_refl].
Qed.

Lemma is_photo_not_video (f : string) : is_photo f = true -> is_video f = false.
Proof.
  unfold is_photo, is_video; intros H; apply elem_In in H.
  destruct H as [H|[H|[]]]; rewrite <- H; reflexivity.
Qed.

Lemma find_media_loop_filter (files photo_media video_media : list string) :
  find_media_loop files photo_media video_media =
  Normal ((photo_media ++ filter is_photo files)%list,
          (video_media ++ filter is_video files)%list).
Proof.
  revert photo_media video_media.
  induction files as [|f rest IH]; intros p v; cbn [find_media_loop filter].
  - rewrite !app_nil_r; reflexivity.
  - rewrite last_item_split.
    fold (is_photo f); fold (is_video f).
    destruct (is_photo f) eqn:Hp.
    + rewrite (is_photo_not_video f Hp), IH, <- app_assoc; reflexivity.
    + destruct (is_video f); rewrite IH; [rewrite <- app_assoc|]; reflexivity.
Qed.

Lemma find_media_in_dir_filter (files : list string) :
  find_media_in_dir files =
  Normal (filter is_photo files, filter is_video files).
Proof. apply find_media_loop_filter. Qed.

(** C7, as amended: the classifier always returns; the photos are the
    file names whose last token between dots is jpg or png and the videos
    those whose last token is mp4, both in the order of the listing; every
    other name is in neither list.  A name without a dot is its own last
    token, so it is left out unless it is jpg, png or mp4 itself. *)
Theorem find_media_in_dir_classifies (files : list string) :
  find_media_in_dir files =
    Normal (filter is_photo files, filter is_video files)
  /\ (forall f, is_photo f = true <-> In (last_token f) ["jpg"; "png"])
  /\ (forall f, is_video f = true <-> last_token f = "mp4")
  /\ (forall f, ~ In (last_token f) ["jpg"; "png"; "mp4"] ->
        ~ In f (filter is_photo files) /\ ~ In f (filter is_video files))
  /\ (forall f, no_dot f = true -> last_token f = f).
Proof.
  split; [apply find_media_in_dir_filter|].
  assert (Hv : forall f, is_video f = true <-> last_token f = "mp4").
  { intros f; unfold is_video; rewrite elem_In; simpl; intuition congruence. }
  split; [intros f; apply elem_In|].
  split; [exact Hv|].
  split; [|exact last_token_no_dot].
  intros f Hn; split; intros H; apply filter_In in H; destruct H as [_ H].
  - apply elem_In in H; apply Hn; simpl in *; tauto.
  - apply Hv in H; apply Hn; simpl; auto.
Qed.

Lemma find_media_in_dir_classifies_witness :
  find_media_in_dir ["a.jpg"; "notes"; "b.mp4"; "c.txt"; "d.png"] =
    Normal (["a.jpg"; "d.png"], ["b.mp4"])
  /\ ~ In "c.txt" ["a.jpg"; "d.png"] /\ ~ In "c.txt" ["b.mp4"]
  /\ last_token "notes" = "notes".
Proof.
  destruct (find_media_in_dir_classifies
              ["a.jpg"; "notes"; "b.mp4"; "c.txt"; "d.png"])
    as [E [_ [_ [X N]]]].
  split; [exact E|].
  assert (Hn : ~ In (last_token "c.txt") ["jpg"; "png"; "mp4"]).
  { simpl; intros [H|[H|[H|[]]]]; discriminate H. }
  destruct (X "c.txt" Hn) as [Xp Xv].
  split; [exact Xp|]. split; [exact Xv|].
  apply N; reflexivity.
Defined.

(** C7, as stated, fails: a file named jpg holds no dot and is a photo. *)
Lemma find_media_in_dir_no_dot_counterexample :
  no_dot "jpg" = true /\
  find_media_in_dir ["jpg"] = Normal (["jpg"], []).
Proof. split; reflexivity. Qed.

Lemma lower_media_type (ext : string) :
  In ext ["jpg"; "png"; "mp4"] -> lower ext = ext.
Proof. intros [H|[H|[H|[]]]]; subst; reflexivity. Qed.

Lemma differs_not_media_type (tok ext : string) :
  In ext ["jpg"; "png"; "mp4"] -> differs_only_in_case tok ext ->
  ~ In tok ["jpg"; "png"; "mp4"].
Proof.
  intros Hext [Hl Hne] Htok.
  rewrite (lower_media_type ext Hext), (lower_media_type tok Htok) in Hl.
  contradiction.
Qed.

(** ** Strings *)

Lemma append_assoc (a b c : string) : (a ++ b) ++ c = a ++ (b ++ c).
Proof.
  induction a as [|x a IH]; simpl; [reflexivity|rewrite IH; reflexivity].
Qed.

Lemma append_inv_head (a b c : string) : a ++ b = a ++ c -> b = c.
Proof.
  induction a as [|x a IH]; simpl; intros H; [assumption|].
  injection H as H; auto.
Qed.

Lemma compare_as_OT (a b : string) :
  String.compare a b = OrdersEx.String_as_OT.compare a b.
Proof.
  revert b; induction a as [|x a IH]; destruct b as [|y b]; reflexivity.
Qed.

Lemma str_lt_trans (a b c : string) : str_lt a b -> str_lt b c -> str_lt a c.
Proof.
  unfold str_lt; rewrite !compare_as_OT.
  apply (@StrictOrder_Transitive _ _ OrdersEx.String_as_OT.lt_strorder).
Qed.

Lemma str_lt_total (a b : string) : a <> b -> str_lt a b \/ str_lt b a.
Proof.
  unfold str_lt; intros H.
  destruct (String.compare a b) eqn:E.
  - apply String.compare_eq_iff in E; contradiction.
  - left; reflexivity.
  - right; rewrite String.compare_antisym, E; reflexivity.
Qed.

Lemma str_lt_irrefl (a : string) : ~ str_lt a a.
Proof.
  unfold str_lt; rewrite compare_as_OT.
  apply (@StrictOrder_Irreflexive _ _ OrdersEx.String_as_OT.lt_strorder).
Qed.

(** ** The transaction log *)

Lemma dict_get_set (d : dict) (k k' : string) (v default : list string) :
  dict_get (dict_set d k v) k' default =
  if k' =? k then v else dict_get d k' default.
Proof.
  induction d as [|[k0 v0] r IH]; simpl; [reflexivity|].
  destruct (String.eqb_spec k k0) as [E|N]; simpl.
  - subst k0; destruct (k' =? k); reflexivity.
  - rewrite IH.
    destruct (String.eqb_spec k' k0) as [E'|N']; [|reflexivity].
    subst k0; destruct (String.eqb_spec k' k); [congruence|reflexivity].
Qed.

Lemma dict_set_keys (d : dict) (k : string) (v : list string) :
  map fst (dict_set d k v) =
  if elem k (map fst d) then map fst d else (map fst d ++ [k])%list.
Proof.
  induction d as [|[k0 v0] r IH]; simpl; [reflexivity|].
  destruct (String.eqb_spec k k0) as [E|N]; simpl.
  - subst; reflexivity.
  - rewrite IH; fold (elem k (map fst r)).
    destruct (elem k (map fst r)); reflexivity.
Qed.

Lemma dict_set_In_key (d : dict) (k k' : string) (v : list string) :
  In k' (map fst (dict_set d k v)) <-> k' = k \/ In k' (map fst d).
Proof.
  rewrite dict_set_keys.
  destruct (elem k (map fst d)) eqn:E.
  - apply elem_In in E; split; [auto|intros [->|H]; assumption].
  - rewrite in_app_iff; simpl; intuition.
Qed.

Lemma dict_set_NoDup (d : dict) (k : string) (v : list string) :
  NoDup (map fst d) -> NoDup (map fst (dict_set d k v)).
Proof.
  intros H; rewrite dict_set_keys.
  destruct (elem k (map fst d)) eqn:E; [assumption|].
  apply NoDup_app; [assumption|repeat constructor; simpl; tauto|].
  intros x Hx [<-|[]].
  apply elem_In in Hx; congruence.
Qed.

Lemma dict_get_In (d : dict) (k : string) (v default : list string) :
  NoDup (map fst d) -> In (k, v) d -> dict_get d k default = v.
Proof.
  induction d as [|[k0 v0] r IH]; simpl; intros ND H; [contradiction|].
  inversion ND as [|? ? Hk ND']; subst.
  destruct H as [H|H].
  - injection H as -> ->; rewrite String.eqb_refl; reflexivity.
  - destruct (String.eqb_spec k k0) as [E|N]; [|auto].
    subst; exfalso; apply Hk; apply (in_map fst) in H; exact H.
Qed.

(** The log that the calls [calls] leave when they start from [t]. *)
Lemma fold_add_record_get (calls : list (string * string)) (t : dict)
    (k : string) :
  dict_get (fold_left (fun t c => add_record t (snd c) (fst c)) calls t) k [] =
  (dict_get t k [] ++ files_for k calls)%list.
Proof.
  revert t; induction calls as [|[d f] calls IH]; intros t; simpl.
  - rewrite app_nil_r; reflexivity.
  - rewrite IH; unfold add_record; rewrite dict_get_set.
    unfold files_for; simpl; rewrite (String.eqb_sym d k).
    destruct (String.eqb_spec k d) as [E|N]; [|reflexivity].
    subst; simpl; rewrite <- app_assoc; reflexivity.
Qed.

Lemma fold_add_record_keys (calls : list (string * string)) (t : dict)
    (k : string) :
  In k (map fst (fold_left (fun t c => add_record t (snd c) (fst c)) calls t))
  <-> In k (map fst t) \/ In k (map fst calls).
Proof.
  revert t; induction calls as [|[d f] calls IH]; intros t; simpl.
  - tauto.
  - rewrite IH; unfold add_record; rewrite dict_set_In_key; intuition.
Qed.

Lemma fold_add_record_NoDup (calls : list (string * string)) (t : dict) :
  NoDup (map fst t) ->
  NoDup (map fst (fold_left (fun t c => add_record t (snd c) (fst c)) calls t)).
Proof.
  revert t; induction calls as [|[d f] calls IH]; intros t H; simpl;
    [assumption|].
  apply IH, dict_set_NoDup, H.
Qed.

Lemma insert_sorted_perm (x : string * list string) (l : dict) :
  Permutation (insert_sorted x l) (x :: l).
Proof.
  induction l as [|y r IH]; simpl; [apply Permutation_refl|].
  destruct (item_ltb y x); [|apply Permutation_refl].
  eapply Permutation_trans; [apply perm_skip, IH|apply perm_swap].
Qed.

Lemma sorted_perm (l : dict) : Permutation (sorted l) l.
Proof.
  induction l as [|x r IH]; simpl; [constructor|].
  eapply Permutation_trans; [apply insert_sorted_perm|apply perm_skip, IH].
Qed.

Lemma item_ltb_keys (a b : string * list string) :
  fst a <> fst b -> item_ltb a b = true <-> str_lt (fst a) (fst b).
Proof.
  unfold item_ltb, str_lt; intros H.
  destruct (String.compare (fst a) (fst b)) eqn:E.
  - apply String.compare_eq_iff in E; contradiction.
  - tauto.
  - split; discriminate.
Qed.

Lemma insert_sorted_keys (x : string * list string) (l : dict) :
  StronglySorted str_lt (map fst l) -> ~ In (fst x) (map fst l) ->
  StronglySorted str_lt (map fst (insert_sorted x l)).
Proof.
  induction l as [|y r IH]; simpl; intros S Hx.
  - repeat constructor.
  - apply StronglySorted_inv in S; destruct S as [S F].
    assert (Hne : fst y <> fst x) by (intros E; apply Hx; auto).
    destruct (item_ltb y x) eqn:L; simpl.
    + apply item_ltb_keys in L; [|assumption].
      constructor; [apply IH; [assumption|tauto]|].
      pose proof (Permutation_map fst (insert_sorted_perm x r)) as P.
      apply (Permutation_Forall (Permutation_sym P)).
      simpl; constructor; assumption.
    + assert (Lt : str_lt (fst x) (fst y)).
      { destruct (str_lt_total (fst y) (fst x) Hne) as [H|H]; [|assumption].
        apply item_ltb_keys in H; [congruence|assumption]. }
      constructor; [constructor; assumption|].
      constructor; [assumption|].
      eapply Forall_impl; [|exact F].
      intros k Hk; eapply str_lt_trans; eassumption.
Qed.

Lemma sorted_keys (l : dict) :
  NoDup (map fst l) -> StronglySorted str_lt (map fst (sorted l)).
Proof.
  induction l as [|x r IH]; simpl; intros ND; [constructor|].
  inversion ND as [|? ? Hx ND']; subst.
  apply insert_sorted_keys; [auto|].
  intros H; apply Hx.
  eapply Permutation_in; [apply Permutation_map, sorted_perm|exact H].
Qed.

Lemma pp_loop_prints (items : dict) (st : state) :
  pp_loop items st =
  (Normal tt, with_stdout st (stdout st ++ map entry_msg items)).
Proof.
  revert st; induction items as [|kv rest IH]; intros st; simpl.
  - rewrite app_nil_r; destruct st; reflexivity.
  - unfold bind, print; rewrite IH; unfold with_stdout; simpl.
    rewrite <- app_assoc; reflexivity.
Qed.

Lemma fold_left_lines (v : list string) (msg : string) :
  fold_left (fun msg val => msg ++ String "010" "    " ++ val) v msg =
  msg ++ file_lines v.
Proof.
  revert msg; induction v as [|val r IH]; intros msg; simpl.
  - induction msg as [|c m IHm]; simpl; [reflexivity|].
    rewrite <- IHm; reflexivity.
  - rewrite IH, !append_assoc; reflexivity.
Qed.

Lemma entry_msg_lines (k : string) (v : list string) :
  entry_msg (k, v) = String "010" k ++ ":" ++ file_lines v.
Proof.
  unfold entry_msg; simpl fst; simpl snd.
  rewrite fold_left_lines.
  change (String "010" k ++ ":") with (String "010" (k ++ ":")).
  change (String "010" (k ++ ":") ++ file_lines v)
    with (String "010" ((k ++ ":") ++ file_lines v)).
  rewrite append_assoc; reflexivity.
Qed.

Example pp_transactions_sample :
  pp_transactions
    (build_log [("pics/2021", "b.jpg"); ("pics/08", "a.jpg");
                ("pics/2021", "c.mp4"); ("pics/10", "d.jpg")])
    sample_state
  = (Normal tt,
     with_stdout sample_state
       [String "010" "pics/08:" ++ String "010" "    a.jpg";
        String "010" "pics/10:" ++ String "010" "    d.jpg";
        String "010" "pics/2021:" ++ String "010" "    b.jpg"
          ++ String "010" "    c.mp4"]).
Proof. reflexivity. Qed.

(** C8: after any sequence of [record(destination, filename)] calls,
    [pp_transactions] prints one message for each destination, the
    destinations in strictly increasing lexicographic order, and the
    message of a destination lists the file names recorded for it in the
    order of the calls. *)
Theorem pp_transactions_sorted_in_record_order
    (calls : list (string * string)) (st : state) :
  exists keys : list string,
    StronglySorted str_lt keys
    /\ (forall k, In k keys <-> In k (map fst calls))
    /\ sorted (build_log calls) = map (fun k => (k, files_for k calls)) keys
    /\ pp_transactions (build_log calls) st =
         (Normal tt,
          with_stdout st
            (stdout st ++
             map (fun k => String "010" k ++ ":" ++
                           file_lines (files_for k calls)) keys)).
Proof.
  set (log := build_log calls).
  assert (ND : NoDup (map fst log))
    by (apply fold_add_record_NoDup; constructor).
  assert (E : sorted log =
              map (fun k => (k, files_for k calls)) (map fst (sorted log))).
  { rewrite map_map.
    rewrite <- (map_id (sorted log)) at 1.
    apply map_ext_in; intros [k v] H; simpl.
    f_equal.
    apply (Permutation_in _ (sorted_perm log)) in H.
    rewrite <- (dict_get_In log k v [] ND H).
    unfold log, build_log; rewrite fold_add_record_get; reflexivity. }
  exists (map fst (sorted log)).
  split; [apply sorted_keys, ND|].
  split.
  { intros k; split; intros H.
    - apply (Permutation_in _ (Permutation_map fst (sorted_perm log))) in H.
      apply fold_add_record_keys in H; destruct H as [[]|H]; exact H.
    - apply (Permutation_in _
               (Permutation_sym (Permutation_map fst (sorted_perm log)))).
      apply fold_add_record_keys; right; exact H. }
  split; [exact E|].
  unfold pp_transactions; rewrite pp_loop_prints.
  do 3 f_equal.
  rewrite E at 1; rewrite map_map.
  apply map_ext; intros k; apply entry_msg_lines.
Qed.

(** ** The destination resolver *)

Lemma append_slash (d s : string) : (d ++ "/") ++ s = d ++ String "/" s.
Proof. rewrite append_assoc; reflexivity. Qed.

(** C4, as amended: [generate_date_dir] appends the date tokens, as they
    are, to the source directory and puts nothing between the two; so for
    a source directory written with its final slash, [d/], and the date
    2021, 08, it returns d/08, d/2021, d/2021_08 and d/2021/08. *)
Theorem generate_date_dir_layouts
    (source_dir d year month : string) (st : state) :
  (generate_date_dir source_dir year month "month" st
     = (Normal (source_dir ++ month), st)
   /\ generate_date_dir source_dir year month "year" st
     = (Normal (source_dir ++ year), st)
   /\ generate_date_dir source_dir year month "year_month" st
     = (Normal (source_dir ++ year ++ "_" ++ month), st)
   /\ generate_date_dir source_dir year month "year/month" st
     = (Normal (source_dir ++ year ++ "/" ++ month), st))
  /\
  (generate_date_dir (d ++ "/") "2021" "08" "month" st
     = (Normal (d ++ "/08"), st)
   /\ generate_date_dir (d ++ "/") "2021" "08" "year" st
     = (Normal (d ++ "/2021"), st)
   /\ generate_date_dir (d ++ "/") "2021" "08" "year_month" st
     = (Normal (d ++ "/2021_08"), st)
   /\ generate_date_dir (d ++ "/") "2021" "08" "year/month" st
     = (Normal (d ++ "/2021/08"), st)).
Proof.
  split; [repeat split|].
  unfold generate_date_dir, ret; simpl; rewrite !append_slash.
  repeat split.
Qed.

(** C4, as stated, fails: no slash is put after the source directory. *)
Lemma generate_date_dir_separator_counterexample :
  fst (generate_date_dir "pics" "2021" "08" "month" sample_state)
    <> Normal ("pics" ++ "/08")
  /\ fst (generate_date_dir "pics/" "2021" "08" "month" sample_state)
    <> Normal ("pics/" ++ "/08").
Proof. split; simpl; intros H; discriminate H. Qed.

Lemma item_lacks_1 (sep : ascii) (s : string) :
  lacks sep s = true -> item (str_split sep s) 1 = Raised IndexError.
Proof. intros H; rewrite (str_split_lacks sep s H); reflexivity. Qed.

Lemma item_split_0 (sep : ascii) (s : string) :
  exists t, item (str_split sep s) 0 = Normal t.
Proof.
  destruct (str_split sep s) as [|t ts] eqn:E.
  - destruct (str_split_not_nil sep s E).
  - exists t; reflexivity.
Qed.

Lemma video_date_dir_IndexError (source_dir dir_layout creation_time : string)
    (video_stream : stream) (t : list (string * string)) (st : state) :
  tags video_stream = Some t ->
  getitem t "creation_time" = Normal creation_time ->
  lacks "-" creation_time = true ->
  video_date_dir source_dir video_stream dir_layout st =
  (Normal (source_dir ++ DEFAULT_DEST), st).
Proof.
  intros Ht Hc Hl.
  unfold video_date_dir, try_except_IndexError, bind, ret, lift.
  rewrite Ht, Hc.
  destruct (item_split_0 "-" creation_time) as [y Hy]; rewrite Hy.
  rewrite (item_lacks_1 "-" creation_time Hl); reflexivity.
Qed.

(** C5, as amended: whatever the layout, recognised or not, a photo
    without EXIF tag 306 and a video whose creation time holds no dash go
    to the source directory followed, with nothing in between, by
    Timestamp_Unavailable; that is d/Timestamp_Unavailable for a source
    directory written [d/]. *)
Theorem absent_date_default_dir
    (source_dir d dir_layout : string) (img : image) (video_stream : stream)
    (t : list (string * string)) (creation_time : string) (st : state) :
  exif_get (getexif img) 306 = None ->
  tags video_stream = Some t ->
  getitem t "creation_time" = Normal creation_time ->
  lacks "-" creation_time = true ->
  photo_date_dir source_dir (exif_get (getexif img) 306) dir_layout st
    = (Normal (source_dir ++ "Timestamp_Unavailable"), st)
  /\ video_date_dir source_dir video_stream dir_layout st
    = (Normal (source_dir ++ "Timestamp_Unavailable"), st)
  /\ photo_date_dir (d ++ "/") (exif_get (getexif img) 306) dir_layout st
    = (Normal (d ++ "/Timestamp_Unavailable"), st)
  /\ video_date_dir (d ++ "/") video_stream dir_layout st
    = (Normal (d ++ "/Timestamp_Unavailable"), st).
Proof.
  intros He Ht Hc Hl.
  rewrite He, !(video_date_dir_IndexError _ _ _ _ _ _ Ht Hc Hl).
  unfold photo_date_dir, ret, DEFAULT_DEST; rewrite !append_slash.
  repeat split.
Qed.

Lemma absent_date_default_dir_witness :
  photo_date_dir "pics/" (exif_get (getexif (mkImage [])) 306) "year"
      sample_state
    = (Normal "pics/Timestamp_Unavailable", sample_state)
  /\ video_date_dir "pics/"
       (mkStream "video" (Some [("creation_time", "unknown")])) "year"
       sample_state
    = (Normal "pics/Timestamp_Unavailable", sample_state).
Proof.
  destruct (absent_date_default_dir "pics/" "pics" "year" (mkImage [])
              (mkStream "video" (Some [("creation_time", "unknown")]))
              [("creation_time", "unknown")] "unknown" sample_state
              eq_refl eq_refl eq_refl eq_refl) as [_ [_ [P V]]].
  split; [exact P|exact V].
Defined.

(** C5, as stated, fails: no slash is put after the source directory. *)
Lemma absent_date_separator_counterexample :
  fst (photo_date_dir "pics" (exif_get (getexif (mkImage [])) 306) "year"
         sample_state)
    <> Normal ("pics" ++ "/Timestamp_Unavailable")
  /\ fst (photo_date_dir "pics/" (exif_get (getexif (mkImage [])) 306) "year"
            sample_state)
    <> Normal ("pics/" ++ "/Timestamp_Unavailable").
Proof. split; simpl; intros H; discriminate H. Qed.

Lemma generate_date_dir_exits (source_dir year month dir_layout : string)
    (st : state) :
  ~ In dir_layout layouts ->
  generate_date_dir source_dir year month dir_layout st =
  (SysExit 1, with_stdout st (stdout st ++ ["Invalid dir_layout provided"])).
Proof.
  intros H; unfold generate_date_dir.
  destruct (String.eqb_spec dir_layout "month") as [E|_];
    [exfalso; apply H; simpl; auto|].
  destruct (String.eqb_spec dir_layout "year") as [E|_];
    [exfalso; apply H; simpl; auto|].
  destruct (String.eqb_spec dir_layout "year_month") as [E|_];
    [exfalso; apply H; simpl; auto|].
  destruct (String.eqb_spec dir_layout "year/month") as [E|_];
    [exfalso; apply H; simpl; auto|].
  reflexivity.
Qed.

(** C6, as amended: for every year and month, [generate_date_dir] with a
    layout outside the four it knows prints its diagnostic and exits with
    status 1, whoever calls it; when a photo has no timestamp the resolver
    is not called, and the default directory is chosen without a look at
    the layout. *)
Theorem generate_date_dir_invalid_layout
    (source_dir year month dir_layout : string) (st : state) :
  ~ In dir_layout layouts ->
  generate_date_dir source_dir year month dir_layout st
    = (SysExit 1,
       with_stdout st (stdout st ++ ["Invalid dir_layout provided"]))
  /\ exit_status (fst (generate_date_dir source_dir year month dir_layout st))
    = 1%Z
  /\ photo_date_dir source_dir None dir_layout st
    = (Normal (source_dir ++ "Timestamp_Unavailable"), st).
Proof.
  intros H; rewrite (generate_date_dir_exits _ _ _ _ st H).
  repeat split.
Qed.

Lemma generate_date_dir_invalid_layout_witness :
  generate_date_dir "pics/" "2021" "08" "decade" sample_state
    = (SysExit 1,
       mkState ["Invalid dir_layout provided"] [] ["pics"] [] [])
  /\ photo_date_dir "pics/" None "decade" sample_state
    = (Normal "pics/Timestamp_Unavailable", sample_state).
Proof.
  assert (H : ~ In "decade" layouts).
  { simpl; intros [H|[H|[H|[H|[]]]]]; discriminate H. }
  destruct (generate_date_dir_invalid_layout "pics/" "2021" "08" "decade"
              sample_state H) as [G [_ P]].
  split; [exact G|exact P].
Defined.

(** C6, as stated, fails: with no capture date an unknown layout is never
    looked at, and the default directory is returned. *)
Lemma absent_date_invalid_layout_counterexample :
  ~ In "decade" layouts
  /\ photo_date_dir "pics/" (exif_get (getexif (mkImage [])) 306) "decade"
       sample_state
     = (Normal "pics/Timestamp_Unavailable", sample_state)
  /\ exit_status
       (fst (photo_date_dir "pics/" (exif_get (getexif (mkImage [])) 306)
               "decade" sample_state)) = 0%Z.
Proof.
  split; [simpl; intros [H|[H|[H|[H|[]]]]]; discriminate H|].
  split; reflexivity.
Qed.

(** ** An unreadable source directory *)

(** C3, as amended: when the source directory cannot be listed, [main]
    prints its diagnostic and returns at once; nothing is classified,
    asked, moved or reported, and the script, which ends there, leaves
    with status 0. *)
Theorem main_unreadable_dir
    (w : world) (prog source_dir e : string) (stdin : list string)
    (st : state) :
  os_listdir w source_dir = inl e ->
  main w source_dir stdin st
    = (Normal tt, with_stdout st (stdout st ++ ["Non-Valid Directory: " ++ e]))
  /\ script w [prog; source_dir] stdin st = main w source_dir stdin st
  /\ exit_status (fst (script w [prog; source_dir] stdin st)) = 0%Z.
Proof.
  intros H.
  assert (E : main w source_dir stdin st =
              (Normal tt,
               with_stdout st (stdout st ++ ["Non-Valid Directory: " ++ e]))).
  { unfold main; rewrite H; reflexivity. }
  split; [exact E|].
  split; [reflexivity|].
  change (script w [prog; source_dir] stdin st)
    with (main w source_dir stdin st).
  rewrite E; reflexivity.
Qed.

Lemma main_unreadable_dir_witness :
  main sample_world "nowhere/" ["y"; "m"] sample_state
    = (Normal tt,
       mkState ["Non-Valid Directory: [Errno 2] No such file or directory"]
               [] ["pics"] [] [])
  /\ exit_status
       (fst (script sample_world ["OrganizeMedia.py"; "nowhere/"] ["y"; "m"]
               sample_state)) = 0%Z.
Proof.
  destruct (main_unreadable_dir sample_world "OrganizeMedia.py" "nowhere/"
              "[Errno 2] No such file or directory" ["y"; "m"] sample_state
              eq_refl) as [E [_ X]].
  split; [exact E|exact X].
Defined.

(** C3, as stated, fails: the listing of nowhere/ fails and the script
    ends with status 0. *)
Lemma main_unreadable_dir_counterexample :
  os_listdir sample_world "nowhere/"
    = inl "[Errno 2] No such file or directory"
  /\ ~ exit_status
         (fst (script sample_world ["OrganizeMedia.py"; "nowhere/"] []
                 sample_state)) <> 0%Z.
Proof. split; [reflexivity|intros H; apply H; reflexivity]. Qed.

(** ** Photos that cannot be decoded *)

(** When [Image.open] fails on the first photo, [img_file] was never
    bound: the message is printed and the next line raises. *)
Lemma img_copy_n_sort_unbound (w : world) (pic e : string)
    (rest : list string) (source_dir dir_layout : string) (st : state) :
  Image_open w (source_dir ++ pic) = inl e ->
  img_copy_n_sort w (pic :: rest) source_dir dir_layout st =
  (Raised (UnboundLocalError "img_file"),
   with_stdout st (stdout st ++ ["Invalid Image: " ++ e])).
Proof.
  intros H; unfold img_copy_n_sort; simpl; rewrite H; reflexivity.
Qed.

(** C1 on the code.  First run: bad.jpg, which cannot be decoded, comes
    first; the message is printed, then the run ends on an
    [UnboundLocalError] and ok.jpg is never looked at.  Second run:
    bad.jpg comes after ok.jpg; the message is printed, then bad.jpg is
    moved and recorded with the date of ok.jpg. *)
Theorem img_copy_n_sort_decode_failure :
  Image_open sample_world "pics/bad.jpg" = inl "cannot identify image file"
  /\ img_copy_n_sort sample_world ["bad.jpg"; "ok.jpg"] "pics/" "year"
       sample_state
     = (Raised (UnboundLocalError "img_file"),
        mkState ["Invalid Image: cannot identify image file"] []
                ["pics"] [] [])
  /\ img_copy_n_sort sample_world ["ok.jpg"; "bad.jpg"] "pics/" "year"
       sample_state
     = (Normal tt,
        mkState ["Invalid Image: cannot identify image file"] []
                ["pics"; "pics/2021"]
                [("pics/ok.jpg", "pics/2021/ok.jpg");
                 ("pics/bad.jpg", "pics/2021/bad.jpg")]
                [("pics/2021", ["ok.jpg"; "bad.jpg"])]).
Proof. repeat split. Qed.

(** ** Videos without a creation time *)

(** A missing key raises [KeyError], which [except IndexError] lets
    through. *)
Lemma video_date_dir_KeyError (source_dir dir_layout : string)
    (video_stream : stream) (t : list (string * string)) (st : state) :
  tags video_stream = None
  \/ (tags video_stream = Some t
      /\ getitem t "creation_time" = Raised (KeyError "creation_time")) ->
  exists key,
    video_date_dir source_dir video_stream dir_layout st
    = (Raised (KeyError key), st).
Proof.
  unfold video_date_dir, try_except_IndexError, bind, raise, lift, ret.
  intros [H|[H1 H2]].
  - exists "tags"; rewrite H; reflexivity.
  - exists "creation_time"; rewrite H1, H2; reflexivity.
Qed.

(** C2 on the code: bare.mp4 has a video stream whose tags hold no
    creation time; the lookup raises [KeyError], nothing catches it, the
    run ends with status 1 and clip.mp4 is never looked at.  The
    [except] clause does its work for odd.mp4, whose creation time holds
    no dash. *)
Theorem video_copy_n_sort_missing_creation_time :
  ffmpeg_probe sample_world "pics/bare.mp4"
    = inr (mkProbe [mkStream "video" (Some [("encoder", "Lavf58")])])
  /\ video_copy_n_sort sample_world ["bare.mp4"; "clip.mp4"] "pics/" "year"
       sample_state
     = (Raised (KeyError "creation_time"), sample_state)
  /\ exit_status
       (fst (video_copy_n_sort sample_world ["bare.mp4"; "clip.mp4"] "pics/"
               "year" sample_state)) = 1%Z
  /\ video_copy_n_sort sample_world ["odd.mp4"] "pics/" "year" sample_state
     = (Normal tt,
        mkState [] [] ["pics"; "pics/Timestamp_Unavailable"]
                [("pics/odd.mp4", "pics/Timestamp_Unavailable/odd.mp4")]
                [("pics/Timestamp_Unavailable", ["odd.mp4"])]).
Proof. repeat split. Qed.

(** ** Sequencing *)

Lemma bind_assoc {A B C} (c : M A) (k : A -> M B) (h : B -> M C) (st : state) :
  bind (bind c k) h st = bind c (fun a => bind (k a) h) st.
Proof.
  unfold bind; destruct (c st) as [[a|code|e] st1]; reflexivity.
Qed.

Lemma bind_ext {A B} (c : M A) (k1 k2 : A -> M B) (st : state) :
  (forall a st1, k1 a st1 = k2 a st1) -> bind c k1 st = bind c k2 st.
Proof.
  intros H; unfold bind; destruct (c st) as [[a|code|e] st1]; auto.
Qed.

(** ** Code that touches neither the files nor the log *)

Lemma quiet_ret {A} (a : A) : quiet (ret a).
Proof. intros st; repeat split. Qed.

Lemma quiet_lift {A} (r : result A) : quiet (lift r).
Proof. intros st; repeat split. Qed.

Lemma quiet_raise {A} (e : exn) : quiet (@raise A e).
Proof. apply quiet_lift. Qed.

Lemma quiet_sys_exit {A} (code : Z) : quiet (@sys_exit A code).
Proof. apply quiet_lift. Qed.

Lemma quiet_print (msg : string) : quiet (print msg).
Proof. intros st; repeat split. Qed.

Lemma quiet_eprint (msg : string) : quiet (eprint msg).
Proof. intros st; repeat split. Qed.

Lemma quiet_bind {A B} (c : M A) (k : A -> M B) :
  quiet c -> (forall a, quiet (k a)) -> quiet (bind c k).
Proof.
  intros Hc Hk st; unfold bind.
  destruct (Hc st) as [D [Mv T]].
  destruct (c st) as [[a|code|e] st1]; simpl in *; auto.
  destruct (Hk a st1) as [D' [Mv' T']].
  rewrite D', Mv', T'; auto.
Qed.

Lemma quiet_try {A} (body handler : M A) :
  quiet body -> quiet handler -> quiet (try_except_IndexError body handler).
Proof.
  intros Hb Hh st; unfold try_except_IndexError.
  destruct (Hb st) as [D [Mv T]].
  destruct (body st) as [[a|code|e] st1]; simpl in *; auto.
  destruct e; simpl; auto.
  destruct (Hh st1) as [D' [Mv' T']].
  rewrite D', Mv', T'; auto.
Qed.

Ltac quiet_steps :=
  repeat first
    [ apply quiet_ret | apply quiet_print | apply quiet_eprint
    | apply quiet_sys_exit | apply quiet_raise | apply quiet_lift
    | apply quiet_bind; [|intros ?]
    | apply quiet_try ].

Lemma quiet_generate_date_dir (source_dir year month dir_layout : string) :
  quiet (generate_date_dir source_dir year month dir_layout).
Proof.
  unfold generate_date_dir.
  repeat match goal with |- context [if ?b then _ else _] => destruct b end;
    quiet_steps.
Qed.

Lemma quiet_photo_date_dir (source_dir : string) (timestamp : option string)
    (dir_layout : string) :
  quiet (photo_date_dir source_dir timestamp dir_layout).
Proof.
  unfold photo_date_dir; destruct timestamp; quiet_steps.
  apply quiet_generate_date_dir.
Qed.

Lemma quiet_video_date_dir (source_dir : string) (video_stream : stream)
    (dir_layout : string) :
  quiet (video_date_dir source_dir video_stream dir_layout).
Proof.
  unfold video_date_dir; quiet_steps.
  - destruct (tags video_stream); quiet_steps.
  - apply quiet_generate_date_dir.
Qed.

Lemma quiet_confirm_loop (stdin : list string) : quiet (confirm_loop stdin).
Proof.
  induction stdin as [|res rest IH]; simpl; quiet_steps.
  destruct (strip res =? "y"); quiet_steps.
  destruct (strip res =? "n"); quiet_steps.
  exact IH.
Qed.

Lemma quiet_layout_loop (stdin : list string) : quiet (layout_loop stdin).
Proof.
  induction stdin as [|res rest IH]; simpl; quiet_steps.
  repeat match goal with |- context [if ?b then _ else _] => destruct b end;
    quiet_steps.
  exact IH.
Qed.

Lemma quiet_pp_transactions (t : dict) : quiet (pp_transactions t).
Proof.
  intros st; unfold pp_transactions; rewrite pp_loop_prints.
  repeat split.
Qed.

(** ** The three steps on one file *)

Lemma os_makedirs_keeps (w : world) (path : string) (st st1 : state)
    (r : result unit) :
  os_makedirs w path st = (r, st1) ->
  incl (dirs st) (dirs st1)
  /\ moved st1 = moved st
  /\ transactions st1 = transactions st.
Proof.
  unfold os_makedirs.
  destruct (os_makedirs_raises w st path); intros H; injection H as <- <-;
    simpl; auto using incl_refl, incl_appl.
Qed.

Lemma create_dir_keeps (w : world) (d : string) (st st1 : state)
    (r : result unit) :
  create_dir w d st = (r, st1) ->
  incl (dirs st) (dirs st1)
  /\ moved st1 = moved st
  /\ transactions st1 = transactions st.
Proof.
  unfold create_dir.
  destruct (negb (os_path_exists w st d)); [apply os_makedirs_keeps|].
  intros H; injection H as <- <-; auto using incl_refl.
Qed.


(** What [place] gives, from what [create_dir] gave. *)
Lemma place_outcome (w : world) (source_dir file d : string)
    (st st1 : state) (r : result unit) :
  create_dir w d st = (r, st1) ->
  place w source_dir file d st =
  match r with
  | Normal _ =>
      match shutil_move_raises w st1 (source_dir ++ file) (d ++ "/" ++ file)
      with
      | Some e => (Raised e, st1)
      | None =>
          (Normal tt,
           mkState (stdout st1) (stderr st1) (dirs st1)
             (moved st1 ++
              [((source_dir ++ file)%string, (d ++ "/" ++ file)%string)])
             (add_record (transactions st1) file d))
      end
  | SysExit code => (SysExit code, st1)
  | Raised e => (Raised e, st1)
  end.
Proof.
  intros H; unfold place, bind; rewrite H.
  destruct r as [[]|code|e]; try reflexivity.
  unfold move_media, shutil_move, record.
  destruct (shutil_move_raises w st1 (source_dir ++ file) (d ++ "/" ++ file));
    reflexivity.
Qed.

Lemma place_then (w : world) (source_dir file d : string) (k : M unit)
    (st : state) :
  (create_dir w d ;; move_media w source_dir file d ;; record file d ;; k) st
  = (place w source_dir file d ;; k) st.
Proof.
  unfold place; rewrite bind_assoc; apply bind_ext; intros [] st1.
  rewrite bind_assoc; reflexivity.
Qed.

(** ** The two loops *)

Lemma places_stop (source_dir : string) (files : list string)
    (st st1 : state) (r : result unit) :
  r <> Normal tt ->
  incl (dirs st) (dirs st1) -> moved st1 = moved st ->
  transactions st1 = transactions st ->
  places source_dir files st (r, st1).
Proof.
  intros Hr D Mv T; exists []; simpl.
  rewrite Mv, T, app_nil_r.
  repeat split; auto.
  - exists 0; reflexivity.
  - intros H; contradiction.
Qed.

Lemma places_quiet (source_dir : string) (files : list string) {A}
    (c : M A) (k : A -> M unit) :
  quiet c ->
  (forall a st1, places source_dir files st1 (k a st1)) ->
  forall st, places source_dir files st (bind c k st).
Proof.
  intros Hc Hk st; unfold bind.
  destruct (Hc st) as [D [Mv T]].
  destruct (c st) as [[a|code|e] st1]; simpl in *.
  - destruct (Hk a st1) as [placed H].
    exists placed; rewrite <- D, <- Mv, <- T; exact H.
  - apply places_stop; auto; [discriminate|rewrite D; apply incl_refl].
  - apply places_stop; auto; [discriminate|rewrite D; apply incl_refl].
Qed.

Lemma places_step (w : world) (source_dir file date_dir : string)
    (rest : list string) (k : M unit) :
  (forall st1, places source_dir rest st1 (k st1)) ->
  forall st,
    places source_dir (file :: rest) st
      ((create_dir w date_dir ;;
        move_media w source_dir file date_dir ;;
        record file date_dir ;;
        k) st).
Proof.
  intros Hk st; rewrite place_then; unfold bind at 1.
  destruct (create_dir w date_dir st) as [r st1] eqn:E.
  destruct (create_dir_keeps w date_dir st st1 r E) as [D [Mv T]].
  rewrite (place_outcome w source_dir file date_dir st st1 r E).
  destruct r as [[]|code|e];
    [|apply places_stop; auto; discriminate
     |apply places_stop; auto; discriminate].
  destruct (shutil_move_raises w st1 (source_dir ++ file)
              (date_dir ++ "/" ++ file));
    [apply places_stop; auto; discriminate|].
  match goal with |- places _ _ _ (k ?s) => set (st3 := s) end.
  destruct (Hk st3) as [placed [[n Hn] [Hall [HM [HT HI]]]]].
  exists ((file, date_dir) :: placed).
  simpl in HM, HT, HI.
  repeat split.
  - exists (S n); simpl; rewrite Hn; reflexivity.
  - intros H; simpl; rewrite (Hall H); reflexivity.
  - rewrite HM, Mv, <- app_assoc; reflexivity.
  - rewrite HT, T; reflexivity.
  - eapply incl_tran; eassumption.
Qed.

Lemma places_nil (source_dir : string) (st : state) :
  places source_dir [] st (ret tt st).
Proof.
  exists []; simpl; rewrite app_nil_r.
  repeat split; auto using incl_refl.
  exists 0; reflexivity.
Qed.

Lemma video_copy_n_sort_places (w : world) (videos : list string)
    (source_dir dir_layout : string) (st : state) :
  places source_dir videos st
    (video_copy_n_sort w videos source_dir dir_layout st).
Proof.
  revert st; induction videos as [|vid rest IH]; intros st.
  - apply places_nil.
  - cbn [video_copy_n_sort].
    apply places_quiet.
    { destruct (ffmpeg_probe w (source_dir ++ vid)); quiet_steps. }
    intros probe st1; apply places_quiet.
    { destruct (find _ (streams probe)); quiet_steps. }
    intros video_stream st2; apply places_quiet.
    { apply quiet_video_date_dir. }
    intros date_dir st3; apply places_step; exact IH.
Qed.

Lemma img_loop_places (w : world) (jpg_files : list string)
    (img_file : option image) (source_dir dir_layout : string) (st : state) :
  places source_dir jpg_files st
    (img_loop w jpg_files img_file source_dir dir_layout st).
Proof.
  revert img_file st; induction jpg_files as [|pic rest IH]; intros img_file st.
  - apply places_nil.
  - cbn [img_loop].
    apply places_quiet.
    { destruct (Image_open w (source_dir ++ pic)); quiet_steps. }
    intros img_file1 st1; apply places_quiet.
    { destruct img_file1; quiet_steps. }
    intros img st2; apply places_quiet.
    { apply quiet_photo_date_dir. }
    intros date_dir st3; apply places_step; intros st4; apply IH.
Qed.

(** A file that can be probed and has a video stream: its directory is
    resolved, then the file is placed, then the loop goes on. *)
Lemma video_copy_n_sort_head (w : world) (vid : string) (rest : list string)
    (p : probe) (video_stream : stream) (source_dir dir_layout : string)
    (st : state) :
  ffmpeg_probe w (source_dir ++ vid) = inr p ->
  find (fun s => codec_type s =? "video") (streams p) = Some video_stream ->
  video_copy_n_sort w (vid :: rest) source_dir dir_layout st =
  (date_dir <- video_date_dir source_dir video_stream dir_layout ;;
   place w source_dir vid date_dir ;;
   video_copy_n_sort w rest source_dir dir_layout) st.
Proof.
  intros Hp Hf; cbn [video_copy_n_sort]; rewrite Hp.
  unfold bind at 1, ret at 1; rewrite Hf.
  unfold bind at 1, ret at 1.
  apply bind_ext; intros d st1; apply place_then.
Qed.

(** A photo that opens: its directory is resolved, then the photo is
    placed, then the loop goes on, with this image as [img_file]. *)
Lemma img_loop_head (w : world) (pic : string) (rest : list string)
    (img : image) (img_file : option image) (source_dir dir_layout : string)
    (st : state) :
  Image_open w (source_dir ++ pic) = inr img ->
  img_loop w (pic :: rest) img_file source_dir dir_layout st =
  (date_dir <- photo_date_dir source_dir (exif_get (getexif img) 306)
                 dir_layout ;;
   place w source_dir pic date_dir ;;
   img_loop w rest (Some img) source_dir dir_layout) st.
Proof.
  intros Ho; cbn [img_loop]; rewrite Ho.
  unfold bind at 1, ret at 1.
  unfold bind at 1, ret at 1.
  apply bind_ext; intros d st1; apply place_then.
Qed.

(** ** The whole session *)

Lemma session_nothing (source_dir : string) (st st1 : state)
    (r : result unit) :
  moved st1 = moved st -> transactions st1 = transactions st ->
  session source_dir st (r, st1).
Proof.
  intros Mv T; exists []; simpl; rewrite Mv, app_nil_r; auto.
Qed.

Lemma session_quiet (source_dir : string) {A} (c : M A) (k : A -> M unit) :
  quiet c ->
  (forall a st1, session source_dir st1 (k a st1)) ->
  forall st, session source_dir st (bind c k st).
Proof.
  intros Hc Hk st; unfold bind.
  destruct (Hc st) as [D [Mv T]].
  destruct (c st) as [[a|code|e] st1]; simpl in *;
    [|apply session_nothing; auto|apply session_nothing; auto].
  destruct (Hk a st1) as [placed H].
  exists placed; rewrite <- Mv, <- T; exact H.
Qed.

Lemma firstn_incl {A} (n : nat) (l : list A) : incl (firstn n l) l.
Proof.
  intros x H; rewrite <- (firstn_skipn n l); apply in_or_app; auto.
Qed.

Lemma placed_in_filter (P : string -> bool) (arr : list string)
    (placed : list (string * string)) :
  (exists n, map fst placed = firstn n (filter P arr)) ->
  Forall (fun p => P (fst p) = true) placed.
Proof.
  intros [n Hn]; apply Forall_forall; intros p Hp.
  apply (in_map fst) in Hp; rewrite Hn in Hp.
  apply firstn_incl, filter_In in Hp; tauto.
Qed.

Lemma session_loops (w : world) (arr : list string)
    (source_dir dir_layout : string) (st : state) :
  session source_dir st
    ((new_transactions ;;
      img_copy_n_sort w (filter is_photo arr) source_dir dir_layout ;;
      video_copy_n_sort w (filter is_video arr) source_dir dir_layout ;;
      transactions <- get_transactions ;;
      pp_transactions transactions) st).
Proof.
  unfold bind at 1, new_transactions.
  set (st0 := mkState (stdout st) (stderr st) (dirs st) (moved st) []).
  unfold bind at 1.
  destruct (img_loop_places w (filter is_photo arr) None source_dir
              dir_layout st0)
    as [p1 [Hn1 [Hall1 [HM1 [HT1 HI1]]]]].
  fold (img_copy_n_sort w (filter is_photo arr) source_dir dir_layout st0)
    in Hall1, HM1, HT1, HI1.
  pose proof (placed_in_filter _ _ _ Hn1) as HP1.
  destruct (img_copy_n_sort w (filter is_photo arr) source_dir dir_layout st0)
    as [r1 s1]; simpl in *.
  assert (S1 : forall r, session source_dir st (r, s1)).
  { intros r; exists p1; simpl.
    repeat split; auto.
    eapply Forall_impl; [|exact HP1]; simpl; auto. }
  destruct r1 as [[]|code|e]; [|apply S1|apply S1].
  unfold bind at 1.
  destruct (video_copy_n_sort_places w (filter is_video arr) source_dir
              dir_layout s1)
    as [p2 [Hn2 [Hall2 [HM2 [HT2 HI2]]]]].
  pose proof (placed_in_filter _ _ _ Hn2) as HP2.
  destruct (video_copy_n_sort w (filter is_video arr) source_dir dir_layout s1)
    as [r2 s2]; simpl in *.
  assert (S2 : forall r s,
                 moved s = moved s2 -> transactions s = transactions s2 ->
                 session source_dir st (r, s)).
  { intros r s Mv T; exists (p1 ++ p2)%list; simpl.
    rewrite Mv, T.
    split.
    { apply Forall_app; split; (eapply Forall_impl; [|eassumption]);
        simpl; auto. }
    split.
    { rewrite HM2, HM1; unfold placed_moves.
      rewrite map_app, app_assoc; reflexivity. }
    right; rewrite HT2, HT1; unfold placed_log.
    rewrite fold_left_app; reflexivity. }
  destruct r2 as [[]|code|e]; [|apply S2; auto|apply S2; auto].
  unfold bind, get_transactions.
  destruct (quiet_pp_transactions (transactions s2) s2) as [D [Mv T]].
  destruct (pp_transactions (transactions s2) s2) as [r3 s3]; simpl in *.
  apply S2; auto.
Qed.

Lemma main_session (w : world) (source_dir : string) (stdin : list string)
    (st : state) :
  session source_dir st (main w source_dir stdin st).
Proof.
  unfold main.
  destruct (os_listdir w source_dir) as [e|arr].
  - apply session_quiet; [apply quiet_print|].
    intros _ st1; apply session_nothing; auto.
  - rewrite find_media_in_dir_filter.
    unfold bind at 1, lift; cbn [fst snd].
    destruct ((length (filter is_photo arr) =? 0)%nat
              && (length (filter is_video arr) =? 0)%nat).
    + apply session_quiet; [apply quiet_print|].
      intros _ st2; apply session_nothing; auto.
    + apply session_quiet; [apply quiet_print|].
      intros _ st2; apply session_quiet; [apply quiet_confirm_loop|].
      intros stdin1 st3; apply session_quiet; [apply quiet_layout_loop|].
      intros dir_layout st4; apply session_loops.
Qed.





(** ** File names that the classifier leaves out *)

Lemma dict_set_In (d : dict) (k k' : string) (v v' : list string) :
  In (k, v) (dict_set d k' v') -> (k, v) = (k', v') \/ In (k, v) d.
Proof.
  induction d as [|[k0 v0] r IH]; simpl.
  - intros [H|[]]; auto.
  - destruct (k' =? k0); simpl; intros [H|H]; auto.
    destruct (IH H); auto.
Qed.

Lemma dict_get_In_or_default (d : dict) (k : string) (default : list string) :
  dict_get d k default = default \/ In (k, dict_get d k default) d.
Proof.
  induction d as [|[k0 v0] r IH]; simpl; [auto|].
  destruct (String.eqb_spec k k0) as [E|N]; [subst; auto|].
  destruct IH; auto.
Qed.

Lemma recorded_add_record (x media_file dest : string) (t : dict) :
  recorded x (add_record t media_file dest) ->
  recorded x t \/ x = media_file.
Proof.
  intros [k [v [Hin Hx]]]; unfold add_record in Hin.
  apply dict_set_In in Hin; destruct Hin as [E|Hin].
  - injection E as -> ->.
    apply in_app_or in Hx; destruct Hx as [Hx|[Hx|[]]]; [|auto].
    destruct (dict_get_In_or_default t dest []) as [D|D].
    + rewrite D in Hx; destruct Hx.
    + left; exists dest, (dict_get t dest []); auto.
  - left; exists k, v; auto.
Qed.

Lemma recorded_placed_log (x : string) (placed : list (string * string))
    (t : dict) :
  recorded x (placed_log placed t) -> recorded x t \/ In x (map fst placed).
Proof.
  revert t; induction placed as [|[f d] placed IH]; intros t; simpl; [auto|].
  intros H; apply IH in H; destruct H as [H|H]; [|auto].
  apply recorded_add_record in H; destruct H as [H|H]; auto.
Qed.

Lemma not_classified (f ext : string) :
  In ext ["jpg"; "png"; "mp4"] -> differs_only_in_case (last_token f) ext ->
  is_photo f = false /\ is_video f = false.
Proof.
  intros Hext Hd.
  pose proof (differs_not_media_type _ _ Hext Hd) as Hn.
  unfold is_photo, is_video, photo_types, video_types.
  split; apply not_true_is_false; intros H; apply elem_In in H;
    apply Hn; simpl in *; tauto.
Qed.

(** C10: a file name whose last token between dots is jpg, png or mp4 but
    for the case of some letters is in neither list of the classifier,
    whatever the listing; a session never moves the file of that name in
    the source directory and never records that name. *)
Theorem case_sensitive_extensions
    (w : world) (source_dir f ext : string) (files stdin : list string)
    (st : state) :
  In ext ["jpg"; "png"; "mp4"] ->
  differs_only_in_case (last_token f) ext ->
  (exists photos videos,
      find_media_in_dir files = Normal (photos, videos)
      /\ ~ In f photos /\ ~ In f videos)
  /\ (forall dst,
        In (source_dir ++ f, dst) (moved (snd (main w source_dir stdin st))) ->
        In (source_dir ++ f, dst) (moved st))
  /\ (recorded f (transactions (snd (main w source_dir stdin st))) ->
      recorded f (transactions st)).
Proof.
  intros Hext Hd.
  destruct (not_classified f ext Hext Hd) as [Hp Hv].
  split.
  { exists (filter is_photo files), (filter is_video files).
    split; [apply find_media_in_dir_filter|].
    split; intros H; apply filter_In in H; destruct H as [_ H]; congruence. }
  destruct (main_session w source_dir stdin st)
    as [placed [HP [HM HT]]].
  assert (Hnot : ~ In f (map fst placed)).
  { intros H; apply in_map_iff in H; destruct H as [p [E Hin]].
    rewrite Forall_forall in HP; specialize (HP p Hin).
    rewrite E in HP; destruct HP; congruence. }
  split.
  - intros dst H; rewrite HM in H.
    apply in_app_or in H; destruct H as [H|H]; [exact H|].
    exfalso; apply Hnot.
    unfold placed_moves in H; apply in_map_iff in H.
    destruct H as [p [E Hin]]; injection E as E1 _.
    apply append_inv_head in E1; rewrite <- E1.
    apply in_map; exact Hin.
  - intros H; destruct HT as [HT|HT]; rewrite HT in H; [exact H|].
    apply recorded_placed_log in H; destruct H as [[k [v [[] _]]]|H].
    contradiction.
Qed.

Lemma case_sensitive_extensions_witness :
  (exists photos videos,
      find_media_in_dir ["ok.jpg"; "shot.JPG"; "clip.mp4"]
        = Normal (photos, videos)
      /\ ~ In "shot.JPG" photos /\ ~ In "shot.JPG" videos)
  /\ ~ recorded "shot.JPG"
         (transactions (snd (main sample_world "pics/" ["y"; "m"]
                               sample_state))).
Proof.
  assert (Hext : In "jpg" ["jpg"; "png"; "mp4"]) by (simpl; auto).
  assert (Hd : differs_only_in_case (last_token "shot.JPG") "jpg").
  { split; [reflexivity|intros H; discriminate H]. }
  destruct (case_sensitive_extensions sample_world "pics/" "shot.JPG" "jpg"
              ["ok.jpg"; "shot.JPG"; "clip.mp4"] ["y"; "m"] sample_state
              Hext Hd) as [C [_ R]].
  split; [exact C|].
  intros H; destruct (R H) as [k [v [[] _]]].
Defined.

(** ** A whole run *)

(** The session on [sample_world], confirmed and sorted by month: ok.jpg
    goes to pics/08; bad.jpg cannot be opened and follows it there;
    clip.mp4 goes to pics/08 as well, odd.mp4 to the default directory;
    bare.mp4 ends the run before the report is printed. *)
Example main_sample_run :
  let run := main sample_world "pics/" ["y"; "m"] sample_state in
  fst run = Raised (KeyError "creation_time")
  /\ dirs (snd run) = ["pics"; "pics/08"; "pics/Timestamp_Unavailable"]
  /\ moved (snd run)
     = [("pics/ok.jpg", "pics/08/ok.jpg");
        ("pics/bad.jpg", "pics/08/bad.jpg");
        ("pics/clip.mp4", "pics/08/clip.mp4");
        ("pics/odd.mp4", "pics/Timestamp_Unavailable/odd.mp4")]
  /\ transactions (snd run)
     = [("pics/08", ["ok.jpg"; "bad.jpg"; "clip.mp4"]);
        ("pics/Timestamp_Unavailable", ["odd.mp4"])].
Proof. repeat split. Qed.

(** * Further properties *)

(** ** File names and their last token *)

Lemma str_split_app_sep (sep : ascii) (a b : string) :
  str_split sep (a ++ String sep b) =
  (str_split sep a ++ str_split sep b)%list.
Proof.
  induction a as [|c r IH]; simpl.
  - rewrite Ascii.eqb_refl; reflexivity.
  - destruct (Ascii.eqb c sep); [rewrite IH; reflexivity|].
    rewrite IH.
    destruct (str_split sep r) as [|t ts] eqn:E; [|reflexivity].
    destruct (str_split_not_nil sep r E).
Qed.

Lemma last_app_not_nil {A} (l1 l2 : list A) (d : A) :
  l2 <> [] -> last (l1 ++ l2) d = last l2 d.
Proof.
  intros H; induction l1 as [|x l1 IH]; [reflexivity|].
  simpl; rewrite IH.
  destruct (l1 ++ l2)%list eqn:E; [|reflexivity].
  apply app_eq_nil in E; destruct E; contradiction.
Qed.

Lemma last_token_after_dot (stem e : string) :
  last_token (stem ++ String "." e) = last_token e.
Proof.
  unfold last_token; rewrite str_split_app_sep.
  apply last_app_not_nil, str_split_not_nil.
Qed.

(** What [str_split] returns: the string itself when it lacks the
    separator, and otherwise tokens the last of which lacks the separator
    and ends the string, just after a separator. *)
Lemma str_split_shape (sep : ascii) (s t : string) (ts : list string) :
  str_split sep s = t :: ts ->
  (ts = [] /\ s = t /\ lacks sep t = true)
  \/ (ts <> [] /\ lacks sep (last ts EmptyString) = true
      /\ exists stem, s = stem ++ String sep (last ts EmptyString)).
Proof.
  revert t ts; induction s as [|c r IH]; intros t ts; simpl.
  - intros H; injection H as <- <-; left; auto.
  - destruct (Ascii.eqb_spec c sep) as [E|N].
    + intros H; injection H as <- <-; right.
      destruct (str_split sep r) as [|t' ts'] eqn:Er;
        [destruct (str_split_not_nil sep r Er)|].
      split; [discriminate|].
      destruct (IH t' ts' eq_refl) as [[-> [-> L]]|[Hn [L [stem Hs]]]].
      * split; [exact L|]; exists EmptyString; subst; reflexivity.
      * assert (El : last (t' :: ts') EmptyString = last ts' EmptyString).
        { destruct ts'; [contradiction|reflexivity]. }
        rewrite El; split; [exact L|].
        exists (String c stem); simpl; rewrite <- Hs; reflexivity.
    + destruct (str_split sep r) as [|t' ts'] eqn:Er;
        [destruct (str_split_not_nil sep r Er)|].
      intros H; injection H as <- <-.
      destruct (IH t' ts' eq_refl) as [[-> [-> L]]|[Hn [L [stem Hs]]]].
      * left; simpl.
        apply Ascii.eqb_neq in N; rewrite N, L; auto.
      * right; split; [exact Hn|]; split; [exact L|].
        exists (String c stem); simpl; rewrite <- Hs; reflexivity.
Qed.

Lemma last_token_cases (s : string) :
  no_dot (last_token s) = true
  /\ (s = last_token s
      \/ exists stem, s = stem ++ String "." (last_token s)).
Proof.
  unfold last_token, no_dot.
  destruct (str_split "." s) as [|t ts] eqn:E;
    [destruct (str_split_not_nil "." s E)|].
  destruct (str_split_shape "." s t ts E) as [[-> [-> L]]|[Hn [L Hs]]].
  - simpl; auto.
  - assert (El : last (t :: ts) EmptyString = last ts EmptyString).
    { destruct ts; [contradiction|reflexivity]. }
    rewrite El; auto.
Qed.

(** The last token is [ext] exactly when the name is [ext] or ends with a
    dot followed by [ext]. *)
Lemma last_token_suffix (f ext : string) :
  no_dot ext = true ->
  last_token f = ext <-> f = ext \/ exists stem, f = stem ++ String "." ext.
Proof.
  intros Hn; split.
  - intros <-; destruct (last_token_cases f) as [_ H]; exact H.
  - intros [->|[stem ->]].
    + apply last_token_no_dot, Hn.
    + rewrite last_token_after_dot; apply last_token_no_dot, Hn.
Qed.

(** X1: a file name of the listing is a photo exactly when it is jpg or
    png or ends with .jpg or .png, and a video exactly when it is mp4 or
    ends with .mp4. *)
Theorem classified_by_suffix (files : list string) :
  exists photos videos,
    find_media_in_dir files = Normal (photos, videos)
    /\ (forall f, In f photos <->
          In f files
          /\ (f = "jpg" \/ f = "png"
              \/ exists stem, f = stem ++ ".jpg" \/ f = stem ++ ".png"))
    /\ (forall f, In f videos <->
          In f files /\ (f = "mp4" \/ exists stem, f = stem ++ ".mp4")).
Proof.
  exists (filter is_photo files), (filter is_video files).
  split; [apply find_media_in_dir_filter|].
  split; intros f; rewrite filter_In;
    unfold is_photo, is_video, photo_types, video_types;
    rewrite elem_In; simpl.
  - split; intros [Hin H]; (split; [exact Hin|]).
    + destruct H as [H|[H|[]]]; symmetry in H.
      * apply (last_token_suffix f "jpg" eq_refl) in H.
        destruct H as [H|[stem H]]; eauto.
      * apply (last_token_suffix f "png" eq_refl) in H.
        destruct H as [H|[stem H]]; eauto 6.
    + destruct H as [H|[H|[stem [H|H]]]].
      * left; symmetry; apply (last_token_suffix f "jpg" eq_refl); auto.
      * right; left; symmetry;
          apply (last_token_suffix f "png" eq_refl); auto.
      * left; symmetry; apply (last_token_suffix f "jpg" eq_refl); eauto.
      * right; left; symmetry;
          apply (last_token_suffix f "png" eq_refl); eauto.
  - split; intros [Hin H]; (split; [exact Hin|]).
    + destruct H as [H|[]]; symmetry in H.
      apply (last_token_suffix f "mp4" eq_refl) in H; exact H.
    + left; symmetry; apply (last_token_suffix f "mp4" eq_refl); exact H.
Qed.

(** ** The classifier on lists *)

(** X2: classifying a listing made of two parts gives the photos of the
    first part followed by those of the second, and the same for the
    videos. *)
Theorem find_media_in_dir_app (a b : list string) :
  exists pa va pb vb,
    find_media_in_dir a = Normal (pa, va)
    /\ find_media_in_dir b = Normal (pb, vb)
    /\ find_media_in_dir (a ++ b) = Normal ((pa ++ pb)%list, (va ++ vb)%list).
Proof.
  exists (filter is_photo a), (filter is_video a),
         (filter is_photo b), (filter is_video b).
  rewrite !find_media_in_dir_filter, !filter_app; auto.
Qed.

Lemma filter_all {A} (P : A -> bool) (l : list A) :
  (forall x, In x l -> P x = true) -> filter P l = l.
Proof.
  induction l as [|x l IH]; simpl; intros H; [reflexivity|].
  rewrite (H x (or_introl eq_refl)), IH; auto.
Qed.

Lemma filter_none {A} (P : A -> bool) (l : list A) :
  (forall x, In x l -> P x = false) -> filter P l = [].
Proof.
  induction l as [|x l IH]; simpl; intros H; [reflexivity|].
  rewrite (H x (or_introl eq_refl)), IH; auto.
Qed.

Lemma is_video_not_photo (f : string) : is_video f = true -> is_photo f = false.
Proof.
  intros H; destruct (is_photo f) eqn:E; [|reflexivity].
  rewrite (is_photo_not_video f E) in H; discriminate H.
Qed.

Lemma filter_two_length (P Q : string -> bool) (l : list string) :
  (forall x, P x = true -> Q x = false) ->
  length (filter P l) + length (filter Q l) <= length l.
Proof.
  intros H; induction l as [|x l IH]; simpl; [lia|].
  destruct (P x) eqn:E; [rewrite (H x E)|destruct (Q x)]; simpl; lia.
Qed.

(** X3: no file name is both a photo and a video; the two lists together
    are no longer than the listing; and classifying the photos again
    gives the same photos and no video, classifying the videos again the
    same videos and no photo. *)
Theorem find_media_in_dir_partition (files : list string) :
  exists photos videos,
    find_media_in_dir files = Normal (photos, videos)
    /\ (forall f, In f photos -> ~ In f videos)
    /\ length photos + length videos <= length files
    /\ find_media_in_dir photos = Normal (photos, [])
    /\ find_media_in_dir videos = Normal ([], videos).
Proof.
  exists (filter is_photo files), (filter is_video files).
  rewrite !find_media_in_dir_filter.
  split; [reflexivity|].
  split.
  { intros f Hp Hv; apply filter_In in Hp; apply filter_In in Hv.
    destruct Hp as [_ Hp]; destruct Hv as [_ Hv].
    rewrite (is_photo_not_video f Hp) in Hv; discriminate Hv. }
  split; [apply filter_two_length, is_photo_not_video|].
  split; f_equal; f_equal.
  - apply filter_all; intros x H; apply filter_In in H; tauto.
  - apply filter_none; intros x H; apply filter_In in H.
    apply is_photo_not_video; tauto.
  - apply filter_none; intros x H; apply filter_In in H.
    apply is_video_not_photo; tauto.
  - apply filter_all; intros x H; apply filter_In in H; tauto.
Qed.

Lemma find_media_in_dir_partition_witness :
  ~ In "a.jpg" ["b.mp4"] /\ 1 + 1 <= 3.
Proof.
  destruct (find_media_in_dir_partition ["a.jpg"; "notes"; "b.mp4"])
    as [photos [videos [E [D [L _]]]]].
  injection E as <- <-.
  split; [apply D; simpl; auto|exact L].
Defined.

(** ** The log as a map *)

Lemma log_size_dict_set (d : dict) (k : string) (v : list string) :
  log_size (dict_set d k v) + length (dict_get d k []) =
  log_size d + length v.
Proof.
  induction d as [|[k0 v0] r IH]; simpl; [lia|].
  destruct (k =? k0); simpl; lia.
Qed.

Lemma log_size_add_record (t : dict) (media_file dest : string) :
  log_size (add_record t media_file dest) = S (log_size t).
Proof.
  unfold add_record.
  pose proof (log_size_dict_set t dest (dict_get t dest [] ++ [media_file]))
    as H.
  rewrite length_app in H; simpl in H; lia.
Qed.

Lemma log_size_placed_log (placed : list (string * string)) (t : dict) :
  log_size (placed_log placed t) = log_size t + length placed.
Proof.
  revert t; induction placed as [|p placed IH]; intros t; simpl; [lia|].
  unfold placed_log in IH; rewrite IH, log_size_add_record; lia.
Qed.

(** X4: [add_record] appends the file name to the list of its
    destination and leaves the list of every other destination as it
    was; a destination already in the log keeps its place, a new one
    goes last; and destinations that were distinct stay so. *)
Theorem add_record_lookup (t : dict) (media_file dest k : string) :
  dict_get (add_record t media_file dest) k [] =
    (if k =? dest then (dict_get t dest [] ++ [media_file])%list
     else dict_get t k [])
  /\ map fst (add_record t media_file dest) =
       (if elem dest (map fst t) then map fst t
        else (map fst t ++ [dest])%list)
  /\ (NoDup (map fst t) -> NoDup (map fst (add_record t media_file dest))).
Proof.
  unfold add_record; split; [apply dict_get_set|].
  split; [apply dict_set_keys|apply dict_set_NoDup].
Qed.

Lemma add_record_lookup_witness :
  dict_get (add_record [("pics/08", ["a.jpg"])] "b.jpg" "pics/08")
    "pics/08" [] = ["a.jpg"; "b.jpg"]
  /\ NoDup (map fst (add_record [("pics/08", ["a.jpg"])] "b.jpg" "pics/08")).
Proof.
  destruct (add_record_lookup [("pics/08", ["a.jpg"])] "b.jpg" "pics/08"
              "pics/08") as [G [_ N]].
  split; [exact G|].
  apply N; repeat constructor; simpl; tauto.
Defined.

(** X5: every call of [add_record] adds one file name to the log, so the
    log built by a sequence of calls holds as many names as there were
    calls, whatever the destinations; its destinations are distinct. *)
Theorem log_size_counts_records
    (calls : list (string * string)) (t : dict) (media_file dest : string) :
  log_size (add_record t media_file dest) = S (log_size t)
  /\ log_size (build_log calls) = length calls
  /\ NoDup (map fst (build_log calls)).
Proof.
  split; [apply log_size_add_record|].
  split; [|apply fold_add_record_NoDup; constructor].
  unfold build_log.
  assert (H : forall t0,
             log_size (fold_left (fun t c => add_record t (snd c) (fst c))
                         calls t0) = log_size t0 + length calls).
  { induction calls as [|c calls IH]; intros t0; simpl; [lia|].
    rewrite IH, log_size_add_record; lia. }
  rewrite H; reflexivity.
Qed.

(** ** The report does not depend on the order of insertion *)

Lemma key_sorted_perm_eq (l1 l2 : dict) :
  StronglySorted str_lt (map fst l1) -> StronglySorted str_lt (map fst l2) ->
  Permutation l1 l2 -> l1 = l2.
Proof.
  revert l2; induction l1 as [|x r1 IH]; intros l2 S1 S2 P.
  - apply Permutation_nil in P; subst; reflexivity.
  - destruct l2 as [|y r2].
    + apply Permutation_sym, Permutation_nil in P; discriminate P.
    + simpl in S1, S2.
      apply StronglySorted_inv in S1; destruct S1 as [S1 F1].
      apply StronglySorted_inv in S2; destruct S2 as [S2 F2].
      assert (E : x = y).
      { assert (Hx : In x (y :: r2))
          by (eapply Permutation_in; [exact P|simpl; auto]).
        assert (Hy : In y (x :: r1))
          by (eapply Permutation_in;
              [apply Permutation_sym; exact P|simpl; auto]).
        destruct Hx as [Hx|Hx]; [auto|].
        destruct Hy as [Hy|Hy]; [auto|].
        rewrite Forall_forall in F1, F2.
        pose proof (F2 _ (in_map fst _ _ Hx)) as L1.
        pose proof (F1 _ (in_map fst _ _ Hy)) as L2.
        destruct (str_lt_irrefl (fst x)).
        eapply str_lt_trans; eassumption. }
      subst y; f_equal.
      apply IH; auto.
      eapply Permutation_cons_inv; exact P.
Qed.

Lemma sorted_of_permutation (t1 t2 : dict) :
  NoDup (map fst t1) -> Permutation t1 t2 -> sorted t1 = sorted t2.
Proof.
  intros ND P.
  assert (ND2 : NoDup (map fst t2)).
  { eapply Permutation_NoDup; [apply Permutation_map; exact P|exact ND]. }
  apply key_sorted_perm_eq; [apply sorted_keys, ND|apply sorted_keys, ND2|].
  eapply Permutation_trans; [apply sorted_perm|].
  eapply Permutation_trans; [exact P|apply Permutation_sym, sorted_perm].
Qed.

(** X6: two logs with distinct destinations that hold the same entries,
    in whatever order they were inserted, give the same report. *)
Theorem pp_transactions_insertion_order (t1 t2 : dict) (st : state) :
  NoDup (map fst t1) -> Permutation t1 t2 ->
  pp_transactions t1 st = pp_transactions t2 st.
Proof.
  intros ND P; unfold pp_transactions.
  rewrite (sorted_of_permutation t1 t2 ND P); reflexivity.
Qed.

Lemma pp_transactions_insertion_order_witness :
  pp_transactions [("pics/2021", ["b.jpg"]); ("pics/08", ["a.jpg"])]
    sample_state
  = pp_transactions [("pics/08", ["a.jpg"]); ("pics/2021", ["b.jpg"])]
      sample_state.
Proof.
  apply pp_transactions_insertion_order.
  - repeat constructor; simpl; intuition discriminate.
  - apply perm_swap.
Defined.

(** ** Reading the date of a photo *)

Lemma string_of_list_ascii_app_lacks (c : ascii) (l : list ascii) :
  Forall (fun x => Ascii.eqb x c = false) l ->
  lacks c (string_of_list_ascii l) = true.
Proof.
  induction 1 as [|x l Hx _ IH]; simpl; [reflexivity|].
  rewrite Hx, IH; reflexivity.
Qed.

Lemma split_ws_aux_lacks (c : ascii) (s : string) (cur : list ascii)
    (skip : nat) :
  lacks c s = true -> Forall (fun x => Ascii.eqb x c = false) cur ->
  Forall (fun t => lacks c t = true) (split_ws_aux s cur skip).
Proof.
  revert cur skip; induction s as [|x r IH]; intros cur skip Hs Hc.
  - simpl; destruct cur; [constructor|].
    repeat constructor.
    apply string_of_list_ascii_app_lacks, Forall_rev, Hc.
  - simpl in Hs; apply andb_true_iff in Hs; destruct Hs as [Hx Hr].
    apply negb_true_iff in Hx.
    cbn [split_ws_aux].
    destruct skip as [|k]; [|apply IH; auto].
    destruct (space_len (String x r)) as [|k].
    + apply IH; auto.
    + destruct cur; [apply IH; auto|].
      constructor; [|apply IH; auto].
      apply string_of_list_ascii_app_lacks, Forall_rev, Hc.
Qed.

Lemma space2_then_space (c1 : ascii) : space2 c1 " " = false.
Proof.
  unfold space2; change (nat_of_ascii " ") with 32.
  destruct (nat_of_ascii c1 =? 194)%nat; reflexivity.
Qed.

Lemma space3_mid_space (c1 c3 : ascii) : space3 c1 " " c3 = false.
Proof.
  unfold space3; change (nat_of_ascii " ") with 32.
  destruct (nat_of_ascii c1 =? 225)%nat, (nat_of_ascii c1 =? 226)%nat,
    (nat_of_ascii c1 =? 227)%nat; reflexivity.
Qed.

Lemma space3_then_space (c1 c2 : ascii) : space3 c1 c2 " " = false.
Proof.
  unfold space3; change (nat_of_ascii " ") with 32.
  destruct (nat_of_ascii c1 =? 225)%nat, (nat_of_ascii c1 =? 226)%nat,
    (nat_of_ascii c1 =? 227)%nat, (nat_of_ascii c2 =? 154)%nat,
    (nat_of_ascii c2 =? 128)%nat, (nat_of_ascii c2 =? 129)%nat; reflexivity.
Qed.

(** No white-space character begins in a string and ends after the space
    that follows it. *)
Lemma space_len_before_space (c : ascii) (r t : string) :
  space_len (String c r) = 0 -> space_len (String c (r ++ String " " t)) = 0.
Proof.
  unfold space_len.
  destruct (space1 c); [discriminate|].
  destruct r as [|c2 r2]; cbn [append].
  - intros _; rewrite space2_then_space.
    destruct t as [|c3 t]; [reflexivity|].
    rewrite space3_mid_space; reflexivity.
  - destruct (space2 c c2); [discriminate|].
    destruct r2 as [|c3 r3]; cbn [append]; [|auto].
    intros _; rewrite space3_then_space; reflexivity.
Qed.

Lemma split_ws_aux_first (d t : string) (cur : list ascii) :
  no_space d = true ->
  (rev cur ++ list_ascii_of_string d)%list <> [] ->
  split_ws_aux (d ++ String " " t) cur 0 =
  string_of_list_ascii (rev cur ++ list_ascii_of_string d)
    :: split_ws_aux t [] 0.
Proof.
  revert cur; induction d as [|x d IH]; intros cur Hd Hne.
  - cbn [append list_ascii_of_string] in *; rewrite app_nil_r in *.
    cbn [split_ws_aux].
    change (space_len (String " " t)) with 1.
    destruct cur; [contradiction|reflexivity].
  - cbn [no_space] in Hd; apply andb_true_iff in Hd; destruct Hd as [Hx Hd].
    apply Nat.eqb_eq in Hx.
    cbn [append split_ws_aux].
    rewrite (space_len_before_space x d t Hx).
    rewrite IH; auto; cbn [rev list_ascii_of_string];
      rewrite <- app_assoc; [reflexivity|].
    simpl; intros E; apply app_eq_nil in E; destruct E as [_ E].
    discriminate E.
Qed.

Lemma split_ws_first (d t : string) :
  no_space d = true -> d <> EmptyString ->
  split_ws (d ++ String " " t) = d :: split_ws t.
Proof.
  intros Hd Hne; unfold split_ws.
  rewrite split_ws_aux_first; auto; simpl.
  - rewrite string_of_list_ascii_of_string; reflexivity.
  - destruct d; [contradiction|discriminate].
Qed.

Lemma str_split_two (sep : ascii) (a b rest : string) :
  lacks sep a = true -> lacks sep b = true ->
  exists more,
    str_split sep (a ++ String sep (b ++ String sep rest)) = a :: b :: more.
Proof.
  intros Ha Hb.
  rewrite !str_split_app_sep, (str_split_lacks sep a Ha),
          (str_split_lacks sep b Hb).
  eexists; reflexivity.
Qed.

(** X7: for an EXIF date written year:month:day, a space and the time,
    with no colon in the year or the month and no white space in the
    date, the directory of the photo is the one that [generate_date_dir]
    gives for that year and that month, taken as they are. *)
Theorem photo_date_dir_parses
    (source_dir year month day time dir_layout : string) (st : state) :
  lacks ":" year = true -> lacks ":" month = true ->
  no_space (year ++ ":" ++ month ++ ":" ++ day) = true ->
  photo_date_dir source_dir
    (Some ((year ++ ":" ++ month ++ ":" ++ day) ++ " " ++ time))
    dir_layout st
  = generate_date_dir source_dir year month dir_layout st.
Proof.
  intros Hy Hm Hs; unfold photo_date_dir.
  change (" " ++ time) with (String " " time).
  rewrite split_ws_first; [|exact Hs|].
  2:{ destruct year; discriminate. }
  unfold bind at 1, lift, item at 1; simpl nth_error.
  change (year ++ ":" ++ month ++ ":" ++ day)
    with (year ++ String ":" (month ++ String ":" day)).
  destruct (str_split_two ":" year month day Hy Hm) as [more E].
  rewrite E; reflexivity.
Qed.

Lemma photo_date_dir_parses_witness :
  photo_date_dir "pics/" (Some "2021:08:15 10:00:00") "year_month"
    sample_state
  = (Normal "pics/2021_08", sample_state).
Proof.
  exact (photo_date_dir_parses "pics/" "2021" "08" "15" "10:00:00"
           "year_month" sample_state eq_refl eq_refl eq_refl).
Defined.

Lemma photo_date_dir_no_colon (source_dir timestamp dir_layout : string)
    (st : state) :
  lacks ":" timestamp = true ->
  photo_date_dir source_dir (Some timestamp) dir_layout st =
  (Raised IndexError, st).
Proof.
  intros H; unfold photo_date_dir, split_ws.
  pose proof (split_ws_aux_lacks ":" timestamp [] 0 H (Forall_nil _)) as F.
  destruct (split_ws_aux timestamp [] 0) as [|t0 ts]; [reflexivity|].
  inversion F as [|? ? H0 _]; subst.
  cbv beta iota zeta delta [bind lift item nth_error].
  rewrite (str_split_lacks ":" t0 H0); reflexivity.
Qed.

(** X8: a photo that opens and whose EXIF date is there but holds no
    colon (an empty or blank date, or a date in another format) ends the
    loop on an [IndexError]: the photo is not moved, not even to the
    default directory, and the photos after it are not looked at. *)
Theorem img_copy_n_sort_bad_date
    (w : world) (pic timestamp : string) (img : image) (rest : list string)
    (source_dir dir_layout : string) (st : state) :
  Image_open w (source_dir ++ pic) = inr img ->
  exif_get (getexif img) 306 = Some timestamp ->
  lacks ":" timestamp = true ->
  img_copy_n_sort w (pic :: rest) source_dir dir_layout st =
  (Raised IndexError, st).
Proof.
  intros Ho He Hl; unfold img_copy_n_sort; cbn [img_loop].
  rewrite Ho; unfold bind at 1, ret at 1.
  unfold bind at 1, ret at 1.
  unfold bind at 1; rewrite He, (photo_date_dir_no_colon _ _ _ _ Hl).
  reflexivity.
Qed.

Lemma img_copy_n_sort_bad_date_witness :
  img_copy_n_sort dashed_world ["a.jpg"; "b.jpg"] "pics/" "year" sample_state
  = (Raised IndexError, sample_state).
Proof.
  exact (img_copy_n_sort_bad_date dashed_world "a.jpg" "2021-08-15"
           (mkImage [(306%Z, "2021-08-15")]) ["b.jpg"] "pics/" "year"
           sample_state eq_refl eq_refl eq_refl).
Defined.

(** ** Reading the date of a video *)

Lemma generate_date_dir_result (source_dir year month dir_layout : string)
    (st : state) :
  (exists d, generate_date_dir source_dir year month dir_layout st
             = (Normal d, st))
  \/ (exists st', generate_date_dir source_dir year month dir_layout st
                  = (SysExit 1, st')).
Proof.
  unfold generate_date_dir.
  repeat match goal with
         | |- context [if ?b then _ else _] =>
             destruct b; [left; eexists; reflexivity|]
         end.
  right; eexists; reflexivity.
Qed.

(** X9: for a creation time written year-month-rest with no dash in the
    year or the month, the directory of the video is the one that
    [generate_date_dir] gives for that year and that month, taken as they
    are; the [except] clause does not interfere, even when
    [generate_date_dir] exits. *)
Theorem video_date_dir_parses
    (source_dir year month rest dir_layout : string) (video_stream : stream)
    (t : list (string * string)) (st : state) :
  tags video_stream = Some t ->
  getitem t "creation_time" = Normal (year ++ "-" ++ month ++ "-" ++ rest) ->
  lacks "-" year = true -> lacks "-" month = true ->
  video_date_dir source_dir video_stream dir_layout st
  = generate_date_dir source_dir year month dir_layout st.
Proof.
  intros Ht Hc Hy Hm.
  unfold video_date_dir, try_except_IndexError, bind, ret, lift.
  rewrite Ht, Hc.
  change (year ++ "-" ++ month ++ "-" ++ rest)
    with (year ++ String "-" (month ++ String "-" rest)).
  destruct (str_split_two "-" year month rest Hy Hm) as [more E].
  rewrite E; unfold item; simpl nth_error.
  destruct (generate_date_dir_result source_dir year month dir_layout st)
    as [[d G]|[st' G]]; rewrite G; reflexivity.
Qed.

Lemma video_date_dir_parses_witness :
  video_date_dir "pics/"
    (mkStream "video" (Some [("creation_time", "2021-08-20T09:30:00")]))
    "year/month" sample_state
  = (Normal "pics/2021/08", sample_state).
Proof.
  exact (video_date_dir_parses "pics/" "2021" "08" "20T09:30:00"
           "year/month"
           (mkStream "video" (Some [("creation_time", "2021-08-20T09:30:00")]))
           [("creation_time", "2021-08-20T09:30:00")] sample_state
           eq_refl eq_refl eq_refl eq_refl).
Defined.

(** ** Videos that cannot be probed *)

Lemma find_video_stream_none (l : list stream) :
  Forall (fun s => codec_type s <> "video") l ->
  find (fun s => codec_type s =? "video") l = None.
Proof.
  induction 1 as [|s l Hs _ IH]; simpl; [reflexivity|].
  apply String.eqb_neq in Hs; rewrite Hs; exact IH.
Qed.

(** X10: when [ffmpeg.probe] fails on a video, or reports no stream of
    type video, the loop writes the error on the standard error and exits
    with status 1; the video is not moved and the videos after it are not
    looked at. *)
Theorem video_copy_n_sort_fatal
    (w : world) (vid e : string) (p : probe) (rest : list string)
    (source_dir dir_layout : string) (st : state) :
  ffmpeg_probe w (source_dir ++ vid) = inl e
  \/ (ffmpeg_probe w (source_dir ++ vid) = inr p
      /\ Forall (fun s => codec_type s <> "video") (streams p)
      /\ e = "No video stream found") ->
  video_copy_n_sort w (vid :: rest) source_dir dir_layout st =
  (SysExit 1, with_stderr st (stderr st ++ [e])).
Proof.
  intros [H|[H [F ->]]]; cbn [video_copy_n_sort]; rewrite H.
  - reflexivity.
  - unfold bind at 1, ret at 1.
    rewrite (find_video_stream_none _ F); reflexivity.
Qed.

Lemma video_copy_n_sort_fatal_witness :
  video_copy_n_sort sample_world ["gone.mp4"; "clip.mp4"] "pics/" "year"
    sample_state
  = (SysExit 1, mkState [] ["ffprobe error"] ["pics"] [] []).
Proof.
  exact (video_copy_n_sort_fatal sample_world "gone.mp4" "ffprobe error"
           (mkProbe []) ["clip.mp4"] "pics/" "year" sample_state
           (or_introl eq_refl)).
Defined.

(** ** Sequencing of the video loop *)

(** X11: the loop over the videos of a list made of two parts is the loop
    over the first part followed, if it returns, by the loop over the
    second part. *)
Theorem video_copy_n_sort_app
    (w : world) (a b : list string) (source_dir dir_layout : string)
    (st : state) :
  video_copy_n_sort w (a ++ b) source_dir dir_layout st =
  (video_copy_n_sort w a source_dir dir_layout ;;
   video_copy_n_sort w b source_dir dir_layout) st.
Proof.
  revert st; induction a as [|vid rest IH]; intros st.
  - reflexivity.
  - cbn [app video_copy_n_sort].
    repeat (rewrite bind_assoc; apply bind_ext; intros ? ?).
    apply IH.
Qed.

(** ** Before the files are touched *)

(** X12: when the listing holds no photo and no video (an empty
    directory, for one), [main] prints that no media was found and exits
    with status 1, without asking anything. *)
Theorem main_no_media
    (w : world) (source_dir : string) (arr stdin : list string) (st : state) :
  os_listdir w source_dir = inr arr ->
  (forall f, In f arr -> is_photo f = false /\ is_video f = false) ->
  main w source_dir stdin st =
  (SysExit 1,
   with_stdout st
     (stdout st ++
      ["No Media found in " ++ (os_getcwd w ++ "/" ++ source_dir) ++ "!"])).
Proof.
  intros Hl Hn; unfold main; rewrite Hl, find_media_in_dir_filter.
  unfold bind at 1, lift; cbn [fst snd].
  rewrite (filter_none is_photo arr), (filter_none is_video arr);
    [reflexivity| |]; intros f Hf; apply Hn, Hf.
Qed.

Lemma main_no_media_witness :
  main docs_world "docs/" [] sample_state
  = (SysExit 1,
     mkState ["No Media found in /home/user/docs/!"] [] ["pics"] [] []).
Proof.
  apply (main_no_media docs_world "docs/" ["notes.txt"; "shot.JPG"] []
           sample_state eq_refl).
  intros f [<-|[<-|[]]]; split; reflexivity.
Defined.

Lemma confirm_loop_stuck (stdin : list string) :
  Forall (fun res => strip res <> "y") stdin ->
  forall st a, fst (confirm_loop stdin st) <> Normal a.
Proof.
  induction 1 as [|res rest Hres _ IH]; intros st a; simpl.
  - intros H; discriminate H.
  - unfold bind at 1, print at 1.
    apply String.eqb_neq in Hres; rewrite Hres.
    destruct (strip res =? "n"); [intros H; discriminate H|apply IH].
Qed.

Lemma quiet_bind_stuck {A B} (c : M A) (k : A -> M B) :
  quiet c -> (forall st a, fst (c st) <> Normal a) -> quiet (bind c k).
Proof.
  intros Hc Hs st; unfold bind.
  destruct (Hc st) as [D [Mv T]]; specialize (Hs st).
  destruct (c st) as [[a|code|e] st1]; simpl in *; auto.
  destruct (Hs a eq_refl).
Qed.

(** X13: as long as no answer to the first question is y, a session
    creates no directory, moves no file and records nothing, whatever
    the directory holds. *)
Theorem main_needs_yes
    (w : world) (source_dir : string) (stdin : list string) (st : state) :
  Forall (fun res => strip res <> "y") stdin ->
  dirs (snd (main w source_dir stdin st)) = dirs st
  /\ moved (snd (main w source_dir stdin st)) = moved st
  /\ transactions (snd (main w source_dir stdin st)) = transactions st.
Proof.
  intros H.
  assert (Q : quiet (main w source_dir stdin)).
  { unfold main; destruct (os_listdir w source_dir) as [e|arr];
      [quiet_steps|].
    rewrite find_media_in_dir_filter.
    apply quiet_bind; [apply quiet_lift|].
    intros media.
    destruct ((length (fst media) =? 0)%nat && (length (snd media) =? 0)%nat);
      [quiet_steps|].
    apply quiet_bind; [apply quiet_print|]; intros _.
    apply quiet_bind_stuck;
      [apply quiet_confirm_loop|apply confirm_loop_stuck, H]. }
  destruct (Q st) as [D [Mv T]]; auto.
Qed.

Lemma main_needs_yes_witness :
  moved (snd (main sample_world "pics/" ["yes"; "ok"; "no"] sample_state))
  = [].
Proof.
  refine (proj1 (proj2 (main_needs_yes sample_world "pics/"
                          ["yes"; "ok"; "no"] sample_state _))).
  repeat constructor; intros H; discriminate H.
Defined.

Lemma confirm_loop_answer (junk rest : list string) (ans : string)
    (st : state) :
  Forall (fun res => strip res <> "y" /\ strip res <> "n") junk ->
  confirm_loop (junk ++ ans :: rest) st =
  (if strip ans =? "y" then ret rest
   else if strip ans =? "n" then
     print "Abort recieved, no images moved." ;; sys_exit 1
   else confirm_loop rest)
    (with_stdout st
       (stdout st ++ repeat confirm_prompt (S (length junk)))).
Proof.
  intros H; revert st; induction H as [|res junk [Hy Hn] _ IH]; intros st.
  - cbn [app confirm_loop length repeat].
    unfold bind at 1, print at 1; reflexivity.
  - cbn [app confirm_loop].
    unfold bind at 1, print at 1.
    apply String.eqb_neq in Hy, Hn; rewrite Hy, Hn, IH.
    unfold with_stdout; simpl; rewrite <- app_assoc; reflexivity.
Qed.

(** X14: when the listing holds a photo or a video and the first answer
    that is y or n, white space aside, is n, [main] has printed the
    count, asked the question once for each answer read, printed that it
    stops, and exits with status 1; nothing else has changed. *)
Theorem main_abort
    (w : world) (source_dir ans : string) (arr junk rest : list string)
    (st : state) :
  os_listdir w source_dir = inr arr ->
  (exists f, In f arr /\ (is_photo f = true \/ is_video f = true)) ->
  Forall (fun res => strip res <> "y" /\ strip res <> "n") junk ->
  strip ans = "n" ->
  main w source_dir (junk ++ ans :: rest) st =
  (SysExit 1,
   with_stdout st
     (stdout st ++
      [str_of_nat (length (filter is_photo arr)) ++ " images and " ++
       str_of_nat (length (filter is_video arr)) ++ " videos found in " ++
       os_getcwd w ++ "/" ++ source_dir] ++
      repeat confirm_prompt (S (length junk)) ++
      ["Abort recieved, no images moved."])).
Proof.
  intros Hl [f [Hin Hm]] Hj Ha.
  unfold main; rewrite Hl, find_media_in_dir_filter.
  unfold bind at 1, lift; cbn [fst snd].
  assert (Hz : ((length (filter is_photo arr) =? 0)%nat
                && (length (filter is_video arr) =? 0)%nat) = false).
  { apply andb_false_iff.
    destruct Hm as [Hm|Hm]; [left|right]; apply Nat.eqb_neq;
      intros E; apply length_zero_iff_nil in E;
      assert (X : In f (filter _ arr)) by (apply filter_In; eauto);
      rewrite E in X; destruct X. }
  rewrite Hz.
  unfold bind at 1, print at 1.
  unfold bind at 1; rewrite (confirm_loop_answer junk rest ans _ Hj), Ha.
  cbn [String.eqb Ascii.eqb Bool.eqb].
  unfold bind, print, sys_exit, lift, with_stdout; simpl.
  rewrite <- !app_assoc; reflexivity.
Qed.

Lemma main_abort_witness :
  main sample_world "pics/" ["maybe"; " n "; "y"] sample_state
  = (SysExit 1,
     mkState
       ["2 images and 3 videos found in /home/user/pics/";
        confirm_prompt; confirm_prompt;
        "Abort recieved, no images moved."]
       [] ["pics"] [] []).
Proof.
  apply (main_abort sample_world "pics/" " n "
           ["ok.jpg"; "bad.jpg"; "shot.JPG"; "clip.mp4"; "odd.mp4";
            "bare.mp4"]
           ["maybe"] ["y"] sample_state eq_refl).
  - exists "ok.jpg"; split; [simpl; auto|left; reflexivity].
  - repeat constructor; intros H; discriminate H.
  - reflexivity.
Defined.

(** ** The layout that the user chooses *)

Lemma layout_loop_layouts (stdin : list string) (st st' : state)
    (dir_layout : string) :
  layout_loop stdin st = (Normal dir_layout, st') -> In dir_layout layouts.
Proof.
  revert st; induction stdin as [|res rest IH]; intros st; simpl.
  - intros H; discriminate H.
  - unfold bind at 1, print at 1.
    destruct (strip res =? "y");
      [intros H; injection H as <- _; simpl; auto|].
    destruct (strip res =? "m");
      [intros H; injection H as <- _; simpl; auto|].
    destruct (strip res =? "y_m");
      [intros H; injection H as <- _; simpl; auto|].
    destruct (strip res =? "y/m");
      [intros H; injection H as <- _; simpl; auto 6|].
    unfold bind at 1, print at 1; apply IH.
Qed.

Lemma generate_date_dir_known (source_dir year month dir_layout : string)
    (st : state) :
  In dir_layout layouts ->
  exists d,
    generate_date_dir source_dir year month dir_layout st = (Normal d, st).
Proof.
  intros [<-|[<-|[<-|[<-|[]]]]]; eexists; reflexivity.
Qed.

(** *** What is printed *)

Lemma np_same {A} (msg : string) (c : M A) :
  (forall st, stdout (snd (c st)) = stdout st) -> never_prints msg c.
Proof.
  intros H st; exists []; rewrite H, app_nil_r; auto.
Qed.

Lemma np_print (msg line : string) :
  line <> msg -> never_prints msg (print line).
Proof.
  intros H st; exists [line]; split; [reflexivity|].
  intros [E|[]]; contradiction.
Qed.

Lemma np_bind_post {A B} (msg : string) (P : A -> Prop) (c : M A)
    (k : A -> M B) :
  never_prints msg c ->
  (forall st a st', c st = (Normal a, st') -> P a) ->
  (forall a, P a -> never_prints msg (k a)) ->
  never_prints msg (bind c k).
Proof.
  intros Hc HP Hk st; unfold bind.
  destruct (Hc st) as [new1 [E1 N1]].
  destruct (c st) as [[a|code|e] st1] eqn:Ec; simpl in *;
    [|exists new1; auto|exists new1; auto].
  destruct (Hk a (HP st a st1 Ec) st1) as [new2 [E2 N2]].
  exists (new1 ++ new2)%list; rewrite E2, E1, <- app_assoc.
  split; [reflexivity|].
  intros H; apply in_app_or in H; tauto.
Qed.

Lemma np_bind {A B} (msg : string) (c : M A) (k : A -> M B) :
  never_prints msg c -> (forall a, never_prints msg (k a)) ->
  never_prints msg (bind c k).
Proof.
  intros Hc Hk.
  apply (np_bind_post msg (fun _ => True) c k Hc); auto.
Qed.

Lemma np_try {A} (msg : string) (body handler : M A) :
  never_prints msg body -> never_prints msg handler ->
  never_prints msg (try_except_IndexError body handler).
Proof.
  intros Hb Hh st; unfold try_except_IndexError.
  destruct (Hb st) as [new1 [E1 N1]].
  destruct (body st) as [[a|code|e] st1]; simpl in *;
    [exists new1; auto|exists new1; auto|].
  destruct e; try (exists new1; auto; fail).
  destruct (Hh st1) as [new2 [E2 N2]].
  exists (new1 ++ new2)%list; rewrite E2, E1, <- app_assoc.
  split; [reflexivity|].
  intros H; apply in_app_or in H; tauto.
Qed.

Lemma np_create_dir (msg : string) (w : world) (filepath : string) :
  never_prints msg (create_dir w filepath).
Proof.
  apply np_same; intros st; unfold create_dir, os_makedirs.
  destruct (negb (os_path_exists w st filepath));
    [destruct (os_makedirs_raises w st filepath)|]; reflexivity.
Qed.

Lemma np_move_media (msg : string) (w : world)
    (file_dir media_file dest : string) :
  never_prints msg (move_media w file_dir media_file dest).
Proof.
  apply np_same; intros st; unfold move_media, shutil_move.
  destruct (shutil_move_raises w st (file_dir ++ media_file)
              (dest ++ "/" ++ media_file)); reflexivity.
Qed.

Ltac np_case :=
  match goal with
  | |- never_prints _ (match ?x with _ => _ end) => destruct x
  end.

Ltac np_step :=
  first
    [ apply np_create_dir | apply np_move_media
    | apply np_print; apply String.eqb_neq; reflexivity
    | apply np_same; intros ?; reflexivity
    | np_case
    | apply np_try
    | apply np_bind; [|intros ?] ].

Lemma np_generate_date_dir (source_dir year month dir_layout : string) :
  In dir_layout layouts ->
  never_prints layout_diagnostic
    (generate_date_dir source_dir year month dir_layout).
Proof.
  intros [<-|[<-|[<-|[<-|[]]]]]; apply np_same; intros st; reflexivity.
Qed.

Lemma np_photo_date_dir (source_dir : string) (timestamp : option string)
    (dir_layout : string) :
  In dir_layout layouts ->
  never_prints layout_diagnostic
    (photo_date_dir source_dir timestamp dir_layout).
Proof.
  intros H; unfold photo_date_dir.
  repeat first [apply np_generate_date_dir; exact H | np_step].
Qed.

Lemma np_video_date_dir (source_dir : string) (video_stream : stream)
    (dir_layout : string) :
  In dir_layout layouts ->
  never_prints layout_diagnostic
    (video_date_dir source_dir video_stream dir_layout).
Proof.
  intros H; unfold video_date_dir.
  repeat first [apply np_generate_date_dir; exact H | np_step].
Qed.

Lemma np_video_copy_n_sort (w : world) (videos : list string)
    (source_dir dir_layout : string) :
  In dir_layout layouts ->
  never_prints layout_diagnostic
    (video_copy_n_sort w videos source_dir dir_layout).
Proof.
  intros H; induction videos as [|vid rest IH]; cbn [video_copy_n_sort];
    repeat first [exact IH | apply np_video_date_dir; exact H | np_step].
Qed.

Lemma np_img_loop (w : world) (jpg_files : list string)
    (img_file : option image) (source_dir dir_layout : string) :
  In dir_layout layouts ->
  never_prints layout_diagnostic
    (img_loop w jpg_files img_file source_dir dir_layout).
Proof.
  intros H; revert img_file; induction jpg_files as [|pic rest IH];
    intros img_file; cbn [img_loop];
    repeat first [apply IH | apply np_photo_date_dir; exact H | np_step].
Qed.

Lemma np_confirm_loop (stdin : list string) :
  never_prints layout_diagnostic (confirm_loop stdin).
Proof.
  induction stdin as [|res rest IH]; cbn [confirm_loop];
    repeat first [exact IH | np_step].
Qed.

Lemma np_layout_loop (stdin : list string) :
  never_prints layout_diagnostic (layout_loop stdin).
Proof.
  induction stdin as [|res rest IH]; cbn [layout_loop];
    repeat first [exact IH | np_step].
Qed.

Lemma np_pp_transactions (t : dict) :
  never_prints layout_diagnostic (pp_transactions t).
Proof.
  intros st; unfold pp_transactions; rewrite pp_loop_prints.
  exists (map entry_msg (sorted t)); split; [reflexivity|].
  intros H; apply in_map_iff in H; destruct H as [[k v] [E _]].
  rewrite entry_msg_lines in E; discriminate E.
Qed.

Lemma count_line_not_diagnostic (n : nat) (tail : string) :
  str_of_nat n ++ String " " tail <> layout_diagnostic.
Proof.
  unfold str_of_nat.
  destruct (Nat.to_uint n); simpl; intros H; discriminate H.
Qed.

Lemma np_main (w : world) (source_dir : string) (stdin : list string) :
  never_prints layout_diagnostic (main w source_dir stdin).
Proof.
  unfold main; destruct (os_listdir w source_dir) as [e|arr];
    [repeat np_step|].
  apply np_bind; [apply np_same; intros st; reflexivity|]; intros media.
  destruct ((length (fst media) =? 0)%nat && (length (snd media) =? 0)%nat);
    [repeat np_step|].
  apply np_bind;
    [apply np_print;
     apply (count_line_not_diagnostic (length (fst media)))|]; intros _.
  apply np_bind; [apply np_confirm_loop|]; intros stdin1.
  apply (np_bind_post layout_diagnostic (fun l => In l layouts));
    [apply np_layout_loop| |].
  { intros st l st' H; eapply layout_loop_layouts; exact H. }
  intros dir_layout Hl.
  repeat first
    [ apply np_img_loop; exact Hl | apply np_video_copy_n_sort; exact Hl
    | apply np_pp_transactions | np_step ].
Qed.

(** X15: whatever is typed, a layout that the second question returns is
    one of the four that [generate_date_dir] knows, so that with it
    [generate_date_dir] returns a directory for every year and month and
    neither prints its diagnostic nor exits; and [main], whatever the
    directory holds and whatever is typed, never prints that diagnostic:
    it only adds lines to the standard output, none of which is it. *)
Theorem layout_loop_recognised
    (w : world) (source_dir : string) (stdin : list string) (st : state) :
  (forall input s s' dir_layout,
      layout_loop input s = (Normal dir_layout, s') ->
      In dir_layout layouts
      /\ forall dir year month s0,
           exists d,
             generate_date_dir dir year month dir_layout s0 = (Normal d, s0))
  /\ exists new,
       stdout (snd (main w source_dir stdin st)) = (stdout st ++ new)%list
       /\ ~ In "Invalid dir_layout provided" new.
Proof.
  split; [|apply np_main].
  intros input s s' dir_layout H; apply layout_loop_layouts in H.
  split; [exact H|].
  intros dir year month s0; apply generate_date_dir_known, H.
Qed.

Lemma layout_loop_recognised_witness :
  In "year_month" layouts
  /\ (exists d,
        generate_date_dir "pics/" "2021" "08" "year_month" sample_state
        = (Normal d, sample_state))
  /\ exists new,
       stdout (snd (main sample_world "pics/" ["y"; "m"] sample_state))
       = new
       /\ ~ In "Invalid dir_layout provided" new.
Proof.
  destruct (layout_loop_recognised sample_world "pics/" ["y"; "m"]
              sample_state) as [L M].
  destruct (L ["x"; " y_m "; "m"] sample_state
              (mkState [layout_prompt; "Invalid input, please try again.";
                        layout_prompt] [] ["pics"] [] [])
              "year_month" eq_refl) as [I G].
  split; [exact I|]; split; [apply G|exact M].
Defined.

(** ** Exit statuses *)

Lemma exits_ret {A} (a : A) : exits_with_1 (ret a).
Proof. intros st code H; discriminate H. Qed.

Lemma exits_lift {A} (r : result A) :
  (forall code, r = SysExit code -> code = 1%Z) -> exits_with_1 (lift r).
Proof. intros H st code E; apply H, E. Qed.

Lemma exits_raise {A} (e : exn) : exits_with_1 (@raise A e).
Proof. intros st code H; discriminate H. Qed.

Lemma exits_sys_exit_1 {A} : exits_with_1 (@sys_exit A 1).
Proof. intros st code H; injection H as <-; reflexivity. Qed.

Lemma exits_print (msg : string) : exits_with_1 (print msg).
Proof. intros st code H; discriminate H. Qed.

Lemma exits_eprint (msg : string) : exits_with_1 (eprint msg).
Proof. intros st code H; discriminate H. Qed.

Lemma exits_bind {A B} (c : M A) (k : A -> M B) :
  exits_with_1 c -> (forall a, exits_with_1 (k a)) -> exits_with_1 (bind c k).
Proof.
  intros Hc Hk st code; unfold bind.
  specialize (Hc st).
  destruct (c st) as [[a|code'|e] st1]; simpl in *.
  - apply Hk.
  - intros H; injection H as <-; apply Hc; reflexivity.
  - intros H; discriminate H.
Qed.

Lemma exits_try {A} (body handler : M A) :
  exits_with_1 body -> exits_with_1 handler ->
  exits_with_1 (try_except_IndexError body handler).
Proof.
  intros Hb Hh st code; unfold try_except_IndexError.
  specialize (Hb st).
  destruct (body st) as [[a|code'|e] st1]; simpl in *; auto.
  destruct e; simpl; auto; apply Hh.
Qed.

Lemma item_no_exit (l : list string) (i : nat) (code : Z) :
  item l i <> SysExit code.
Proof. unfold item; destruct (nth_error l i); discriminate. Qed.

Lemma getitem_no_exit (d : list (string * string)) (k : string) (code : Z) :
  getitem d k <> SysExit code.
Proof.
  induction d as [|[k' v] r IH]; simpl; [discriminate|].
  destruct (k =? k'); [discriminate|exact IH].
Qed.

Ltac exits_steps :=
  repeat first
    [ apply exits_ret | apply exits_print | apply exits_eprint
    | apply exits_sys_exit_1 | apply exits_raise
    | apply exits_lift; intros ? E;
      first [destruct (item_no_exit _ _ _ E)
            |destruct (getitem_no_exit _ _ _ E)
            |discriminate E]
    | apply exits_bind; [|intros ?]
    | apply exits_try ].

Lemma exits_generate_date_dir (source_dir year month dir_layout : string) :
  exits_with_1 (generate_date_dir source_dir year month dir_layout).
Proof.
  unfold generate_date_dir.
  repeat match goal with |- context [if ?b then _ else _] => destruct b end;
    exits_steps.
Qed.

Lemma exits_create_dir (w : world) (filepath : string) :
  exits_with_1 (create_dir w filepath).
Proof.
  unfold create_dir, os_makedirs; intros st code.
  destruct (negb (os_path_exists w st filepath));
    [destruct (os_makedirs_raises w st filepath)|];
    intros H; discriminate H.
Qed.

Lemma exits_move_media (w : world) (file_dir media_file dest : string) :
  exits_with_1 (move_media w file_dir media_file dest).
Proof.
  unfold move_media, shutil_move; intros st code.
  destruct (shutil_move_raises w st (file_dir ++ media_file)
              (dest ++ "/" ++ media_file));
    intros H; discriminate H.
Qed.

Lemma exits_record (media_file dest : string) :
  exits_with_1 (record media_file dest).
Proof. intros st code H; discriminate H. Qed.

Ltac exits_body :=
  exits_steps;
  repeat match goal with
    | |- exits_with_1 (match ?x with _ => _ end) => destruct x; exits_steps
    | |- exits_with_1 (generate_date_dir _ _ _ _) =>
        apply exits_generate_date_dir
    | |- exits_with_1 (photo_date_dir _ _ _) =>
        unfold photo_date_dir; exits_steps
    | |- exits_with_1 (video_date_dir _ _ _) =>
        unfold video_date_dir; exits_steps
    | |- exits_with_1 (create_dir _ _) => apply exits_create_dir
    | |- exits_with_1 (move_media _ _ _ _) => apply exits_move_media
    | |- exits_with_1 (record _ _) => apply exits_record
    end.

Lemma exits_video_copy_n_sort (w : world) (videos : list string)
    (source_dir dir_layout : string) :
  exits_with_1 (video_copy_n_sort w videos source_dir dir_layout).
Proof.
  induction videos as [|vid rest IH]; cbn [video_copy_n_sort]; exits_body.
  exact IH.
Qed.

Lemma exits_img_loop (w : world) (jpg_files : list string)
    (img_file : option image) (source_dir dir_layout : string) :
  exits_with_1 (img_loop w jpg_files img_file source_dir dir_layout).
Proof.
  revert img_file; induction jpg_files as [|pic rest IH]; intros img_file;
    cbn [img_loop]; exits_body.
  apply IH.
Qed.

Lemma exits_confirm_loop (stdin : list string) :
  exits_with_1 (confirm_loop stdin).
Proof.
  induction stdin as [|res rest IH]; simpl; exits_steps.
  destruct (strip res =? "y"); exits_steps.
  destruct (strip res =? "n"); exits_steps.
  exact IH.
Qed.

Lemma exits_layout_loop (stdin : list string) :
  exits_with_1 (layout_loop stdin).
Proof.
  induction stdin as [|res rest IH]; simpl; exits_steps.
  repeat match goal with |- context [if ?b then _ else _] => destruct b end;
    exits_steps.
  exact IH.
Qed.

Lemma exits_pp_transactions (t : dict) : exits_with_1 (pp_transactions t).
Proof.
  intros st code; unfold pp_transactions; rewrite pp_loop_prints.
  intros H; discriminate H.
Qed.

Lemma exits_main (w : world) (source_dir : string) (stdin : list string) :
  exits_with_1 (main w source_dir stdin).
Proof.
  unfold main; destruct (os_listdir w source_dir) as [e|arr]; exits_steps.
  - rewrite find_media_in_dir_filter.
    apply exits_lift; intros code E; discriminate E.
  - match goal with |- context [if ?b then _ else _] => destruct b end;
      exits_steps.
    + apply exits_confirm_loop.
    + apply exits_layout_loop.
    + apply exits_img_loop.
    + apply exits_video_copy_n_sort.
    + intros st code H; discriminate H.
    + apply exits_pp_transactions.
Qed.

(** X16: whatever the directory holds and whatever is typed, the script
    ends with status 0 or 1, and with 0 only when [main] returned. *)
Theorem script_exit_status
    (w : world) (argv stdin : list string) (st : state) :
  (exit_status (fst (script w argv stdin st)) = 0%Z
   /\ fst (script w argv stdin st) = Normal tt)
  \/ exit_status (fst (script w argv stdin st)) = 1%Z.
Proof.
  assert (E : exits_with_1 (script w argv stdin)).
  { unfold script; destruct (nth_error argv 1);
      [apply exits_main|].
    apply exits_bind; [apply exits_print|intros _; apply exits_main]. }
  specialize (E st).
  destruct (fst (script w argv stdin st)) as [[]|code|e]; simpl; auto.
Qed.

(** ** A session that runs to its end *)

Lemma str_split_has_sep (sep : ascii) (s : string) :
  lacks sep s = false -> exists a b more, str_split sep s = a :: b :: more.
Proof.
  intros H.
  destruct (str_split sep s) as [|t ts] eqn:E;
    [destruct (str_split_not_nil sep s E)|].
  destruct (str_split_shape sep s t ts E) as [[_ [-> L]]|[Hn _]].
  - congruence.
  - destruct ts as [|b more]; [contradiction|eauto].
Qed.

Lemma photo_date_dir_ready (source_dir dir_layout : string)
    (timestamp : option string) (st : state) :
  In dir_layout layouts ->
  match timestamp with
  | None => True
  | Some ts =>
      exists t0 more, split_ws ts = t0 :: more /\ lacks ":" t0 = false
  end ->
  exists d,
    photo_date_dir source_dir timestamp dir_layout st = (Normal d, st).
Proof.
  intros Hl H; unfold photo_date_dir.
  destruct timestamp as [ts|]; [|eexists; reflexivity].
  destruct H as [t0 [more [E L]]]; rewrite E.
  destruct (str_split_has_sep ":" t0 L) as [y [m [rest Es]]].
  cbv beta iota zeta delta [bind lift item nth_error].
  rewrite Es.
  apply generate_date_dir_known, Hl.
Qed.

Lemma video_date_dir_ready (source_dir dir_layout c : string)
    (video_stream : stream) (t : list (string * string)) (st : state) :
  In dir_layout layouts ->
  tags video_stream = Some t ->
  getitem t "creation_time" = Normal c ->
  exists d,
    video_date_dir source_dir video_stream dir_layout st = (Normal d, st).
Proof.
  intros Hl Ht Hc.
  unfold video_date_dir, try_except_IndexError, bind, ret, lift.
  rewrite Ht, Hc.
  destruct (str_split "-" c) as [|y [|m rest]] eqn:E.
  - destruct (str_split_not_nil "-" c E).
  - eexists; reflexivity.
  - unfold item; simpl nth_error.
    destruct (generate_date_dir_known source_dir y m dir_layout st Hl)
      as [d G].
    rewrite G; eexists; reflexivity.
Qed.

Lemma place_returns (w : world) (source_dir file d : string) (st : state) :
  never_raises w ->
  exists st1, place w source_dir file d st = (Normal tt, st1).
Proof.
  intros [Hmk Hmv].
  destruct (create_dir w d st) as [r st0] eqn:E.
  rewrite (place_outcome w source_dir file d st st0 r E).
  unfold create_dir, os_makedirs in E; rewrite Hmk in E.
  destruct (negb (os_path_exists w st d)); injection E as <- <-;
    rewrite Hmv; eexists; reflexivity.
Qed.

Lemma img_loop_completes (w : world) (jpg_files : list string)
    (source_dir dir_layout : string) :
  never_raises w ->
  In dir_layout layouts ->
  (forall pic, In pic jpg_files -> photo_ready w source_dir pic) ->
  forall img_file st,
    fst (img_loop w jpg_files img_file source_dir dir_layout st) = Normal tt.
Proof.
  intros Hw Hl; induction jpg_files as [|pic rest IH]; intros Hr img_file st.
  - reflexivity.
  - destruct (Hr pic (or_introl eq_refl)) as [img [Ho He]].
    rewrite (img_loop_head w pic rest img img_file _ _ st Ho).
    destruct (photo_date_dir_ready source_dir dir_layout
                (exif_get (getexif img) 306) st Hl He) as [d Hd].
    unfold bind at 1; rewrite Hd.
    destruct (place_returns w source_dir pic d st Hw) as [st1 E].
    unfold bind at 1; rewrite E; apply IH.
    intros p Hp; apply Hr; right; exact Hp.
Qed.

Lemma video_copy_n_sort_completes (w : world) (videos : list string)
    (source_dir dir_layout : string) :
  never_raises w ->
  In dir_layout layouts ->
  (forall vid, In vid videos -> video_ready w source_dir vid) ->
  forall st,
    fst (video_copy_n_sort w videos source_dir dir_layout st) = Normal tt.
Proof.
  intros Hw Hl; induction videos as [|vid rest IH]; intros Hr st.
  - reflexivity.
  - destruct (Hr vid (or_introl eq_refl)) as [p [s [t [c [Hp [Hf [Ht Hc]]]]]]].
    rewrite (video_copy_n_sort_head w vid rest p s _ _ st Hp Hf).
    destruct (video_date_dir_ready source_dir dir_layout c s t st Hl Ht Hc)
      as [d Hd].
    unfold bind at 1; rewrite Hd.
    destruct (place_returns w source_dir vid d st Hw) as [st1 E].
    unfold bind at 1; rewrite E; apply IH.
    intros v Hv; apply Hr; right; exact Hv.
Qed.

Lemma placed_moves_sources (source_dir : string)
    (placed : list (string * string)) :
  map fst (placed_moves source_dir placed) =
  map (append source_dir) (map fst placed).
Proof. unfold placed_moves; rewrite !map_map; reflexivity. Qed.

Lemma loops_complete (w : world) (photos videos : list string)
    (source_dir dir_layout : string) (st : state) :
  never_raises w ->
  In dir_layout layouts ->
  (forall pic, In pic photos -> photo_ready w source_dir pic) ->
  (forall vid, In vid videos -> video_ready w source_dir vid) ->
  exists s,
    (new_transactions ;;
     img_copy_n_sort w photos source_dir dir_layout ;;
     video_copy_n_sort w videos source_dir dir_layout ;;
     transactions <- get_transactions ;;
     pp_transactions transactions) st = (Normal tt, s)
    /\ map fst (moved s) =
         (map fst (moved st) ++ map (append source_dir) (photos ++ videos))%list
    /\ log_size (transactions s) = length photos + length videos.
Proof.
  intros Hw Hl Hp Hv.
  unfold bind at 1, new_transactions.
  set (st0 := mkState (stdout st) (stderr st) (dirs st) (moved st) []).
  unfold bind at 1.
  destruct (img_loop_places w photos None source_dir dir_layout st0)
    as [p1 [_ [Hall1 [HM1 [HT1 _]]]]].
  pose proof (img_loop_completes w photos source_dir dir_layout Hw Hl Hp
                None st0) as N1.
  fold (img_copy_n_sort w photos source_dir dir_layout st0)
    in Hall1, HM1, HT1, N1.
  destruct (img_copy_n_sort w photos source_dir dir_layout st0) as [r1 s1].
  simpl in *; subst r1; specialize (Hall1 eq_refl).
  unfold bind at 1.
  destruct (video_copy_n_sort_places w videos source_dir dir_layout s1)
    as [p2 [_ [Hall2 [HM2 [HT2 _]]]]].
  pose proof (video_copy_n_sort_completes w videos source_dir dir_layout
                Hw Hl Hv s1) as N2.
  destruct (video_copy_n_sort w videos source_dir dir_layout s1) as [r2 s2].
  simpl in *; subst r2; specialize (Hall2 eq_refl).
  unfold bind, get_transactions, pp_transactions.
  rewrite pp_loop_prints; simpl.
  eexists; split; [reflexivity|]; simpl.
  split.
  - rewrite HM2, HM1, !map_app, !placed_moves_sources, Hall1, Hall2.
    rewrite <- app_assoc; reflexivity.
  - rewrite HT2, HT1, !log_size_placed_log; simpl.
    rewrite <- (length_map fst p1), <- (length_map fst p2), Hall1, Hall2.
    reflexivity.
Qed.

(** X17: when the directory can be listed and holds a photo or a video,
    every photo opens and has either no EXIF date or one whose first
    token holds a colon, every video can be probed and has a video stream
    with a creation time, the first answer is y and the second names a
    layout, and neither [os.makedirs] nor [shutil.move] raises, then the
    session runs to its end: [main] returns, the script
    ends with status 0, every photo and then every video of the listing
    has been moved, in the order of the listing, and the log holds as
    many names as there are such files. *)
Theorem main_completes
    (w : world) (source_dir a1 a2 : string) (arr rest : list string)
    (st : state) :
  os_listdir w source_dir = inr arr ->
  (exists f, In f arr /\ (is_photo f = true \/ is_video f = true)) ->
  (forall f, In f arr -> is_photo f = true -> photo_ready w source_dir f) ->
  (forall f, In f arr -> is_video f = true -> video_ready w source_dir f) ->
  never_raises w ->
  strip a1 = "y" ->
  In (strip a2) ["y"; "m"; "y_m"; "y/m"] ->
  let run := main w source_dir (a1 :: a2 :: rest) st in
  fst run = Normal tt
  /\ exit_status (fst run) = 0%Z
  /\ map fst (moved (snd run)) =
       (map fst (moved st) ++
        map (append source_dir)
          (filter is_photo arr ++ filter is_video arr))%list
  /\ log_size (transactions (snd run)) =
       length (filter is_photo arr) + length (filter is_video arr).
Proof.
  intros Hl [f [Hin Hm]] Hp Hv Hw Ha1 Ha2 run.
  assert (Hz : ((length (filter is_photo arr) =? 0)%nat
                && (length (filter is_video arr) =? 0)%nat) = false).
  { apply andb_false_iff.
    destruct Hm as [Hm|Hm]; [left|right]; apply Nat.eqb_neq;
      intros E; apply length_zero_iff_nil in E;
      assert (X : In f (filter _ arr)) by (apply filter_In; eauto);
      rewrite E in X; destruct X. }
  assert (Hlay : forall s, exists l s',
             layout_loop (a2 :: rest) s = (Normal l, s')
             /\ moved s' = moved s).
  { intros s; cbn [layout_loop]; unfold bind at 1, print at 1.
    destruct Ha2 as [E|[E|[E|[E|[]]]]]; rewrite <- E; simpl;
      eexists; eexists; split; reflexivity. }
  assert (R : exists s,
             run = (Normal tt, s)
             /\ map fst (moved s) =
                  (map fst (moved st) ++
                   map (append source_dir)
                     (filter is_photo arr ++ filter is_video arr))%list
             /\ log_size (transactions s) =
                  length (filter is_photo arr) + length (filter is_video arr)).
  { subst run; unfold main; rewrite Hl, find_media_in_dir_filter.
    unfold bind at 1, lift; cbn [fst snd]; rewrite Hz.
    unfold bind at 1, print at 1.
    cbn [confirm_loop]; unfold bind at 1, bind at 1, print at 1.
    rewrite Ha1; cbn [String.eqb Ascii.eqb Bool.eqb]; unfold ret at 1.
    unfold bind at 1.
    match goal with |- context [layout_loop _ ?s] =>
      destruct (Hlay s) as [l [s' [El Ms]]] end.
    rewrite El.
    pose proof (layout_loop_layouts _ _ _ _ El) as Hin_l.
    destruct (loops_complete w (filter is_photo arr) (filter is_video arr)
                source_dir l s' Hw Hin_l) as [s [E [Mv L]]].
    { intros pic H; apply filter_In in H; destruct H; auto. }
    { intros vid H; apply filter_In in H; destruct H; auto. }
    exists s; rewrite E, Mv, L, Ms; auto. }
  destruct R as [s [E [Mv L]]]; rewrite E; simpl; auto.
Qed.

Lemma main_completes_witness :
  let run := main tidy_world "album/" ["y"; "m"] sample_state in
  fst run = Normal tt
  /\ map fst (moved (snd run)) = ["album/a.jpg"; "album/b.mp4"]
  /\ log_size (transactions (snd run)) = 2.
Proof.
  assert (H := main_completes tidy_world "album/" "y" "m"
                 ["a.jpg"; "b.mp4"; "c.txt"] [] sample_state eq_refl).
  destruct H as [N [_ [M L]]].
  - exists "a.jpg"; split; [simpl; auto|left; reflexivity].
  - intros f [<-|[<-|[<-|[]]]] P; try discriminate P.
    exists (mkImage [(306%Z, "2020:01:15 10:00:00")]).
    split; [reflexivity|].
    exists "2020:01:15", ["10:00:00"]; split; reflexivity.
  - intros f [<-|[<-|[<-|[]]]] P; try discriminate P.
    exists (mkProbe [mkStream "video"
                       (Some [("creation_time", "2020-01-20T08:00:00")])]),
      (mkStream "video" (Some [("creation_time", "2020-01-20T08:00:00")])),
      [("creation_time", "2020-01-20T08:00:00")], "2020-01-20T08:00:00".
    repeat split.
  - split; reflexivity.
  - reflexivity.
  - simpl; auto.
  - split; [exact N|]; split; [exact M|exact L].
Defined.

(** The run of the sample above, in full: both files end in album/01 and
    the report lists them in the order in which they were moved. *)
Example tidy_session :
  main tidy_world "album/" ["y"; "m"] (mkState [] [] ["album"] [] [])
  = (Normal tt,
     mkState
       ["1 images and 1 videos found in /home/user/album/";
        confirm_prompt; layout_prompt;
        String "010" "album/01:" ++ String "010" "    a.jpg"
          ++ String "010" "    b.mp4"]
       [] ["album"; "album/01"]
       [("album/a.jpg", "album/01/a.jpg"); ("album/b.mp4", "album/01/b.mp4")]
       [("album/01", ["a.jpg"; "b.mp4"])]).
Proof. reflexivity. Qed.

(** ** What a session may move *)

Lemma moves_within_nothing (source_dir : string) (allowed : list string)
    (st st1 : state) (r : result unit) :
  moved st1 = moved st -> moves_within source_dir allowed st (r, st1).
Proof.
  intros Mv; exists []; simpl; rewrite Mv, app_nil_r.
  split; [intros x []|reflexivity].
Qed.

Lemma moves_within_quiet (source_dir : string) (allowed : list string) {A}
    (c : M A) (k : A -> M unit) :
  quiet c ->
  (forall a st1, moves_within source_dir allowed st1 (k a st1)) ->
  forall st, moves_within source_dir allowed st (bind c k st).
Proof.
  intros Hc Hk st; unfold bind.
  destruct (Hc st) as [D [Mv T]].
  destruct (c st) as [[a|code|e] st1]; simpl in *;
    [|apply moves_within_nothing; auto|apply moves_within_nothing; auto].
  destruct (Hk a st1) as [placed H].
  exists placed; rewrite <- Mv; exact H.
Qed.

Lemma moves_within_loops (w : world) (photos videos : list string)
    (source_dir dir_layout : string) (st : state) :
  moves_within source_dir (photos ++ videos) st
    ((new_transactions ;;
      img_copy_n_sort w photos source_dir dir_layout ;;
      video_copy_n_sort w videos source_dir dir_layout ;;
      transactions <- get_transactions ;;
      pp_transactions transactions) st).
Proof.
  unfold bind at 1, new_transactions.
  set (st0 := mkState (stdout st) (stderr st) (dirs st) (moved st) []).
  unfold bind at 1.
  destruct (img_loop_places w photos None source_dir dir_layout st0)
    as [p1 [[n1 Hn1] [_ [HM1 _]]]].
  fold (img_copy_n_sort w photos source_dir dir_layout st0) in HM1.
  destruct (img_copy_n_sort w photos source_dir dir_layout st0) as [r1 s1].
  simpl in *.
  assert (I1 : incl (map fst p1) (photos ++ videos)).
  { rewrite Hn1; intros x Hx; apply in_or_app; left.
    exact (firstn_incl n1 photos x Hx). }
  assert (S1 : forall r, moves_within source_dir (photos ++ videos) st (r, s1)).
  { intros r; exists p1; simpl; auto. }
  destruct r1 as [[]|code|e]; [|apply S1|apply S1].
  unfold bind at 1.
  destruct (video_copy_n_sort_places w videos source_dir dir_layout s1)
    as [p2 [[n2 Hn2] [_ [HM2 _]]]].
  destruct (video_copy_n_sort w videos source_dir dir_layout s1) as [r2 s2].
  simpl in *.
  assert (S2 : forall r s, moved s = moved s2 ->
                 moves_within source_dir (photos ++ videos) st (r, s)).
  { intros r s Mv; exists (p1 ++ p2)%list; simpl; rewrite Mv.
    split.
    { rewrite map_app; apply incl_app; [exact I1|].
      rewrite Hn2; intros x Hx; apply in_or_app; right.
      exact (firstn_incl n2 videos x Hx). }
    rewrite HM2, HM1; unfold placed_moves.
    rewrite map_app, app_assoc; reflexivity. }
  destruct r2 as [[]|code|e]; [|apply S2; auto|apply S2; auto].
  unfold bind, get_transactions, pp_transactions.
  rewrite pp_loop_prints; apply S2; reflexivity.
Qed.

Lemma main_moves_within (w : world) (source_dir : string)
    (stdin : list string) (st : state) :
  moves_within source_dir (media_of w source_dir) st
    (main w source_dir stdin st).
Proof.
  unfold main, media_of.
  destruct (os_listdir w source_dir) as [e|arr].
  - apply moves_within_quiet; [apply quiet_print|].
    intros _ st1; apply moves_within_nothing; reflexivity.
  - rewrite find_media_in_dir_filter.
    unfold bind at 1, lift; cbn [fst snd].
    destruct ((length (filter is_photo arr) =? 0)%nat
              && (length (filter is_video arr) =? 0)%nat).
    + apply moves_within_quiet; [apply quiet_print|].
      intros _ st2; apply moves_within_nothing; reflexivity.
    + apply moves_within_quiet; [apply quiet_print|].
      intros _ st2; apply moves_within_quiet; [apply quiet_confirm_loop|].
      intros stdin1 st3; apply moves_within_quiet; [apply quiet_layout_loop|].
      intros dir_layout st4; apply moves_within_loops.
Qed.

(** X18: every [shutil.move] of a session has as its source the source
    directory, as it was given, followed at once by a name of the
    listing that the classifier keeps, and as its destination some
    directory, a slash and that same name. *)
Theorem main_moves_only_media
    (w : world) (source_dir : string) (stdin : list string) (st : state)
    (src dst : string) :
  In (src, dst) (moved (snd (main w source_dir stdin st))) ->
  In (src, dst) (moved st)
  \/ exists arr f d,
       os_listdir w source_dir = inr arr
       /\ In f arr
       /\ (is_photo f = true \/ is_video f = true)
       /\ src = source_dir ++ f
       /\ dst = d ++ "/" ++ f.
Proof.
  intros H.
  destruct (main_moves_within w source_dir stdin st) as [placed [I M]].
  rewrite M in H; apply in_app_or in H; destruct H as [H|H]; [auto|right].
  unfold placed_moves in H; apply in_map_iff in H.
  destruct H as [[f d] [E Hin]]; simpl in E; injection E as <- <-.
  pose proof (I f (in_map fst _ _ Hin)) as Hf.
  unfold media_of in Hf.
  destruct (os_listdir w source_dir) as [e|arr]; [destruct Hf|].
  exists arr, f, d.
  apply in_app_or in Hf.
  assert (X : In f arr /\ (is_photo f = true \/ is_video f = true)).
  { destruct Hf as [Hf|Hf]; apply filter_In in Hf; tauto. }
  tauto.
Qed.

Lemma main_moves_only_media_witness :
  exists arr f d,
    os_listdir tidy_world "album/" = inr arr
    /\ In f arr
    /\ (is_photo f = true \/ is_video f = true)
    /\ "album/b.mp4" = "album/" ++ f
    /\ "album/01/b.mp4" = d ++ "/" ++ f.
Proof.
  destruct (main_moves_only_media tidy_world "album/" ["y"; "m"] sample_state
              "album/b.mp4" "album/01/b.mp4") as [[]|H].
  - simpl; auto.
  - exact H.
Defined.
